(** * souls-save-backup: a shallow embedding of [main.py]

    The development follows the source file top to bottom:
    - [Sanitizer]: [make_safe_filename], a pure function on Python strings;
    - the values of the program (JSON values, exceptions, the directory
      tree) and the two records [platform] and [world];
    - [Py]: the small state-and-exception monad the methods are written in;
    - [Lib]: the library functions the methods call;
    - [SoulsSaveBackup]: the methods of the class and the main program;
    - [Notions], [Startup], [WellFormed]: what the properties are stated
      with; [Scenario] and [Cases]: a concrete installation;
    - the properties: the sanitizer, the engine, the loaders, the pass
      over the entries, and two runs in a row.

    Python strings are sequences of Unicode code points, so a string is a
    [list N] here; [str] turns an ASCII literal into such a list.

    What the model leaves out:
    - [_setup_logger] and [ToastNotifier()] are taken to succeed; a log
      line is kept as a constructor of [log_line], not as formatted text;
    - the state file, when it parses, holds a mapping from names to finite
      numbers (the program checks nothing about it);
    - the backup tree lies outside the source trees, so that a copy does
      not change what [os.walk] and [os.listdir] report, and the source
      trees hold files and directories only (no links);
    - an exception stands for its class and the sub-classes the program
      does not tell apart: [OSError] is also [PermissionError] or
      [NotADirectoryError], [ValueError] is also [UnicodeEncodeError].

    How the operating system can fail is part of the [platform]: a path it
    does not accept, a directory that cannot be listed, a file whose time
    cannot be read, a directory that cannot be made, a file that cannot be
    copied, a state file that cannot be written, a notification that
    raises; and a JSON file can be missing, unreadable, not text, not
    JSON, or nested too deeply. *)

From Stdlib Require Import ZArith NArith Ascii String List Bool Lia.
From stdpp Require Import base list gmap fin_maps.
Import ListNotations.

Local Open Scope bool_scope.
Set Warnings "-register-all".

Abbreviation pystr := (list N).

Definition str (s : string) : pystr :=
  map N_of_ascii (list_ascii_of_string s).

(* ===================================================================== *)
(** ** The filename sanitizer *)
(* ===================================================================== *)

Module Sanitizer.

(** [char in s] for a one-character string. *)
Definition char_in (c : N) (s : pystr) : bool := existsb (N.eqb c) s.

(** The character class of the regular expression [forbidden_chars]:
    less-than, greater-than, colon, the double quote (code point 34), slash,
    backslash, vertical bar, question mark and asterisk. *)
Definition forbidden_chars : pystr :=
  str "<>:" ++ [34%N] ++ str "/\|?*".

Definition forbidden (c : N) : bool := char_in c forbidden_chars.

(** [string.printable] of the Python standard library:
    [digits + ascii_letters + punctuation + whitespace]. *)
Definition digits : pystr := str "0123456789".
Definition ascii_lowercase : pystr := str "abcdefghijklmnopqrstuvwxyz".
Definition ascii_uppercase : pystr := str "ABCDEFGHIJKLMNOPQRSTUVWXYZ".
Definition ascii_letters : pystr := ascii_lowercase ++ ascii_uppercase.
Definition punctuation : pystr :=
  str "!" ++ [34%N] ++ str "#$%&'()*+,-./:;<=>?@[\]^_`{|}~".
(** space, tab, line feed, carriage return, vertical tab, form feed *)
Definition whitespace : pystr := [32; 9; 10; 13; 11; 12]%N.
Definition printable : pystr :=
  digits ++ ascii_letters ++ punctuation ++ whitespace.

(** [re.sub(forbidden_chars, '', filename)]: every match of the class is
    one character, and every such character is deleted. *)
Definition remove_forbidden (filename : pystr) : pystr :=
  List.filter (fun c => negb (forbidden c)) filename.

(** Step 2 joins the characters [char] of [safe_name] that satisfy
    [char in string.printable]. *)
Definition keep_printable (safe_name : pystr) : pystr :=
  List.filter (fun c => char_in c printable) safe_name.

(** [s.strip(chars)] *)
Fixpoint lstrip (chars s : pystr) : pystr :=
  match s with
  | c :: s' => if char_in c chars then lstrip chars s' else s
  | [] => []
  end.
Definition rstrip (chars s : pystr) : pystr := rev (lstrip chars (rev s)).
Definition strip (chars s : pystr) : pystr := rstrip chars (lstrip chars s).

(** [s.split('.')[0]]: the part before the first period, the whole string
    when there is none. *)
Fixpoint before_first_dot (s : pystr) : pystr :=
  match s with
  | c :: s' => if N.eqb c 46 then [] else c :: before_first_dot s'
  | [] => []
  end.

(** [s.upper()] on the characters that reach it: after step 2 the string
    holds characters of [string.printable] only, all of them ASCII, where
    [upper] maps [a-z] to [A-Z] and leaves the rest. *)
Definition upper_char (c : N) : N :=
  if (97 <=? c)%N && (c <=? 122)%N then (c - 32)%N else c.
Definition upper (s : pystr) : pystr := map upper_char s.

Definition reserved_names : list pystr :=
  map str
    [ "CON"; "PRN"; "AUX"; "NUL";
      "COM1"; "COM2"; "COM3"; "COM4"; "COM5"; "COM6"; "COM7"; "COM8"; "COM9";
      "LPT1"; "LPT2"; "LPT3"; "LPT4"; "LPT5"; "LPT6"; "LPT7"; "LPT8"; "LPT9"
    ]%string.

Definition pystr_eqb (a b : pystr) : bool := bool_decide (a = b).

Definition is_reserved (name_without_ext : pystr) : bool :=
  existsb (pystr_eqb name_without_ext) reserved_names.

Definition underscore : N := 95%N.
Definition empty_token : pystr := str "_empty_".

(** Steps 1 to 3: the string the reserved-name check looks at. *)
Definition cleaned (filename : pystr) : pystr :=
  strip (str ". ") (keep_printable (remove_forbidden filename)).

(** Step 4 *)
Definition guard_reserved (safe_name : pystr) : pystr :=
  let name_without_ext := upper (before_first_dot safe_name) in
  if is_reserved name_without_ext then underscore :: safe_name else safe_name.

(** Step 5 *)
Definition guard_empty (safe_name : pystr) : pystr :=
  match safe_name with [] => empty_token | _ => safe_name end.

(** Step 6: [safe_name[:255]] *)
Definition truncate (safe_name : pystr) : pystr := take 255 safe_name.

Definition make_safe_filename (filename : pystr) : pystr :=
  let safe_name := remove_forbidden filename in
  let safe_name := keep_printable safe_name in
  let safe_name := strip (str ". ") safe_name in
  let safe_name := guard_reserved safe_name in
  let safe_name := guard_empty safe_name in
  let safe_name := truncate safe_name in
  safe_name.

(** What the specification calls the printable ASCII range: space to tilde. *)
Definition printable_ascii (c : N) : bool := (32 <=? c)%N && (c <=? 126)%N.

(** A name the first five steps leave alone: no forbidden character, only
    printable characters, no space or period at either end, a stem that is
    not reserved, and not empty. *)
Definition valid_name (s : pystr) : bool :=
  forallb (fun c => negb (forbidden c)) s
  && forallb (fun c => char_in c printable) s
  && match s with c :: _ => negb (char_in c (str ". ")) | [] => false end
  && match rev s with c :: _ => negb (char_in c (str ". ")) | [] => false end
  && negb (is_reserved (upper (before_first_dot s))).

End Sanitizer.

Import Sanitizer.

(* ===================================================================== *)
(** ** Values, exceptions and the world the program runs in *)
(* ===================================================================== *)

(** A path is kept as the list of its components: [os.path.join] is only
    ever applied to a directory and one name without a separator (a
    sanitized name, a timestamp, a directory entry). *)
Abbreviation path := (list pystr).

(** A finite Python number (an [int] of the JSON files or the [float] of
    [os.path.getmtime]).  The program only compares numbers and tests them
    for zero.  Every [int] and every finite [float] is an integer multiple
    of [2^-1074], so a number [x] is held as the integer [x * 2^1074]:
    order and zero are kept. *)
Abbreviation number := Z.

(** What [json.load] returns.  A dictionary has distinct keys and is kept
    as an association list. *)
Inductive json : Type :=
| JNull
| JBool (b : bool)
| JNum (n : number)
| JStr (s : pystr)
| JList (l : list json)
| JDict (d : list (pystr * json)).

Inductive exn : Type :=
| FileNotFoundError
| JSONDecodeError
| UnicodeDecodeError
| RecursionError
| AttributeError
| KeyError
| TypeError
| ValueError
| OSError.

Inductive outcome (A : Type) : Type :=
| Ok (a : A)
| Raise (e : exn).
Arguments Ok {A} a.
Arguments Raise {A} e.

(** The source tree: a file with its modification time, or a directory
    with its modification time and its entries in [os.listdir] order. *)
Inductive node : Type :=
| File (mtime : number)
| Dir (mtime : number) (entries : list (pystr * node)).

(** What opening and parsing a JSON file gives: the file is missing; it
    cannot be opened (no permission, a directory); its bytes are not text
    in the encoding of the platform; its text is not JSON; its JSON is
    nested deeper than the parser can follow; or it parses. *)
Inductive file_read (A : Type) : Type :=
| Absent
| Denied
| Undecodable
| Corrupt
| TooDeep
| Content (a : A).
Arguments Absent {A}.
Arguments Denied {A}.
Arguments Undecodable {A}.
Arguments Corrupt {A}.
Arguments TooDeep {A}.
Arguments Content {A} a.

Inductive log_line : Type :=
| InfoStarting
| InfoConfigLoaded
| ErrMalformedConfig
| ErrMalformedEntry
| ErrConfigNotFound
| ErrConfigParse
| ErrNotifyFailed
| InfoNewOrModified (base_name : json) (file : pystr)
| InfoCopying (file : pystr) (backup_path : path)
| InfoSkipping (file : pystr)
| ErrEntryFailed (name : json) (e : exn)
| InfoComplete (files_backed_up files_processed : nat)
| ErrBackupFailed (e : exn).

Inductive toast : Type :=
| ToastConfigNotFound
| ToastConfigParse
| ToastBackupFailed (e : exn).

Record copy : Type := { src : path; dst : path }.

(** Everything the program reads but does not change. *)
Record platform : Type := {
  config_file : file_read json;          (* config.json *)
  expandvars : pystr -> pystr;           (* os.path.expandvars on a str *)
  unicode_digit : N -> bool;             (* the characters str.isdigit accepts *)
  clock : nat -> pystr;                  (* n-th reading of now().strftime(...) *)
  tree_at : pystr -> option node;        (* the directory tree under a path *)
  unencodable : pystr -> bool;           (* strings the system cannot encode as a path *)
  listdir_blocked : path -> bool;        (* directories that cannot be listed *)
  getmtime_blocked : path -> bool;       (* files os.path.getmtime fails on *)
  makedirs_blocked : path -> bool;       (* directories os.makedirs fails on *)
  copy_blocked : path -> bool;           (* source files shutil.copy2 fails on *)
  state_writable : bool;                 (* open(state_file, w) succeeds *)
  toast_raises : bool                    (* show_toast raises *)
}.

(** Everything the program changes: the attributes of the
    [SoulsSaveBackup] object and the outside world. *)
Record world : Type := {
  load_failed : bool;
  backup_failed : bool;
  config : option json;
  state : gmap pystr number;
  tick : nat;                            (* clock readings taken so far *)
  made_dirs : list path;                 (* os.makedirs calls *)
  copies : list copy;                    (* files copied by shutil.copy2 *)
  log : list log_line;
  toast_requests : list toast;           (* show_toast calls *)
  state_file : file_read (gmap pystr number)   (* backup_state.json *)
}.

Definition with_load_failed (b : bool) (w : world) : world :=
  {| load_failed := b; backup_failed := backup_failed w; config := config w;
     state := state w; tick := tick w; made_dirs := made_dirs w;
     copies := copies w; log := log w; toast_requests := toast_requests w;
     state_file := state_file w |}.
Definition with_backup_failed (b : bool) (w : world) : world :=
  {| load_failed := load_failed w; backup_failed := b; config := config w;
     state := state w; tick := tick w; made_dirs := made_dirs w;
     copies := copies w; log := log w; toast_requests := toast_requests w;
     state_file := state_file w |}.
Definition with_config (c : option json) (w : world) : world :=
  {| load_failed := load_failed w; backup_failed := backup_failed w; config := c;
     state := state w; tick := tick w; made_dirs := made_dirs w;
     copies := copies w; log := log w; toast_requests := toast_requests w;
     state_file := state_file w |}.
Definition with_state (s : gmap pystr number) (w : world) : world :=
  {| load_failed := load_failed w; backup_failed := backup_failed w;
     config := config w; state := s; tick := tick w; made_dirs := made_dirs w;
     copies := copies w; log := log w; toast_requests := toast_requests w;
     state_file := state_file w |}.
Definition with_tick (n : nat) (w : world) : world :=
  {| load_failed := load_failed w; backup_failed := backup_failed w;
     config := config w; state := state w; tick := n; made_dirs := made_dirs w;
     copies := copies w; log := log w; toast_requests := toast_requests w;
     state_file := state_file w |}.
Definition with_made_dirs (l : list path) (w : world) : world :=
  {| load_failed := load_failed w; backup_failed := backup_failed w;
     config := config w; state := state w; tick := tick w; made_dirs := l;
     copies := copies w; log := log w; toast_requests := toast_requests w;
     state_file := state_file w |}.
Definition with_copies (l : list copy) (w : world) : world :=
  {| load_failed := load_failed w; backup_failed := backup_failed w;
     config := config w; state := state w; tick := tick w;
     made_dirs := made_dirs w; copies := l; log := log w;
     toast_requests := toast_requests w; state_file := state_file w |}.
Definition with_log (l : list log_line) (w : world) : world :=
  {| load_failed := load_failed w; backup_failed := backup_failed w;
     config := config w; state := state w; tick := tick w;
     made_dirs := made_dirs w; copies := copies w; log := l;
     toast_requests := toast_requests w; state_file := state_file w |}.
Definition with_toast_requests (l : list toast) (w : world) : world :=
  {| load_failed := load_failed w; backup_failed := backup_failed w;
     config := config w; state := state w; tick := tick w;
     made_dirs := made_dirs w; copies := copies w; log := log w;
     toast_requests := l; state_file := state_file w |}.
Definition with_state_file (f : file_read (gmap pystr number)) (w : world) : world :=
  {| load_failed := load_failed w; backup_failed := backup_failed w;
     config := config w; state := state w; tick := tick w;
     made_dirs := made_dirs w; copies := copies w; log := log w;
     toast_requests := toast_requests w; state_file := f |}.

(* ===================================================================== *)
(** ** The monad of the methods: state that survives an exception *)
(* ===================================================================== *)

Module Py.

(** A method runs on a world and leaves a world, with a value or an
    exception: what was changed before a [raise] stays changed. *)
Definition M (A : Type) : Type := world -> world * outcome A.

Definition ret {A} (a : A) : M A := fun w => (w, Ok a).

Definition raise {A} (e : exn) : M A := fun w => (w, Raise e).

Definition bind {A B} (m : M A) (k : A -> M B) : M B :=
  fun w =>
    match m w with
    | (w', Ok a) => k a w'
    | (w', Raise e) => (w', Raise e)
    end.

(** [try: m  except Exception as e: handler e] *)
Definition try_except {A} (m : M A) (handler : exn -> M A) : M A :=
  fun w =>
    match m w with
    | (w', Ok a) => (w', Ok a)
    | (w', Raise e) => handler e w'
    end.

Definition lift {A} (o : outcome A) : M A := fun w => (w, o).

Definition gets {A} (f : world -> A) : M A := fun w => (w, Ok (f w)).

Definition modify (f : world -> world) : M unit := fun w => (f w, Ok tt).

(** A [for] loop whose body updates the local variables [s]. *)
Fixpoint for_each {A S} (l : list A) (body : S -> A -> M S) (s : S) : M S :=
  match l with
  | [] => ret s
  | x :: l' => bind (body s x) (for_each l' body)
  end.

End Py.

Import Py.

Declare Scope py_scope.
Delimit Scope py_scope with py.
Notation "x <- c ;; k" := (bind c (fun x => k))
  (at level 100, c at next level, right associativity) : py_scope.
Notation "c ;; k" := (bind c (fun _ => k))
  (at level 100, right associativity) : py_scope.
Local Open Scope py_scope.

(* ===================================================================== *)
(** ** Library functions the methods call *)
(* ===================================================================== *)

Module Lib.

(** Truth value of a JSON value in a condition. *)
Definition truthy (j : json) : bool :=
  match j with
  | JNull => false
  | JBool b => b
  | JNum n => negb (n =? 0)%Z
  | JStr s => match s with [] => false | _ => true end
  | JList l => match l with [] => false | _ => true end
  | JDict d => match d with [] => false | _ => true end
  end.

Fixpoint assoc (k : pystr) (d : list (pystr * json)) : option json :=
  match d with
  | [] => None
  | (k', v) :: d' => if pystr_eqb k k' then Some v else assoc k d'
  end.

(** [j.get(k)]: only a dictionary has the method. *)
Definition dict_get (j : json) (k : pystr) : outcome json :=
  match j with
  | JDict d => Ok (match assoc k d with Some v => v | None => JNull end)
  | _ => Raise AttributeError
  end.

(** [j[k]] with a string key. *)
Definition getitem (j : json) (k : pystr) : outcome json :=
  match j with
  | JDict d => match assoc k d with Some v => Ok v | None => Raise KeyError end
  | _ => Raise TypeError
  end.

(** [isinstance(j, List)] and [isinstance(j, Dict)] *)
Definition is_list (j : json) : bool :=
  match j with JList _ => true | _ => false end.

(** The elements a [for] loop over a JSON value goes through. *)
Definition iterate (j : json) : outcome (list json) :=
  match j with
  | JList l => Ok l
  | JStr s => Ok (map (fun c => JStr [c]) s)
  | JDict d => Ok (map (fun kv => JStr (fst kv)) d)
  | _ => Raise TypeError
  end.

(** [open(f); json.load(f)] *)
Definition open_and_load {A} (f : file_read A) : outcome A :=
  match f with
  | Absent => Raise FileNotFoundError
  | Denied => Raise OSError
  | Undecodable => Raise UnicodeDecodeError
  | Corrupt => Raise JSONDecodeError
  | TooDeep => Raise RecursionError
  | Content a => Ok a
  end.

(** [os.path.expandvars] accepts a string only. *)
Definition os_path_expandvars (p : platform) (j : json) : outcome pystr :=
  match j with
  | JStr s => Ok (expandvars p s)
  | _ => Raise TypeError
  end.

(** [make_safe_filename] called on a JSON value: [re.sub] accepts a string
    only. *)
Definition make_safe_filename_of (j : json) : outcome pystr :=
  match j with
  | JStr s => Ok (make_safe_filename s)
  | _ => Raise TypeError
  end.

(** [s.isdigit()]: not empty and digits only. *)
Definition isdigit (p : platform) (s : pystr) : bool :=
  match s with [] => false | _ => forallb (unicode_digit p) s end.

Fixpoint startswith (s pre : pystr) : bool :=
  match pre, s with
  | [], _ => true
  | c :: pre', d :: s' => N.eqb c d && startswith s' pre'
  | _ :: _, [] => false
  end.

Definition endswith (s suffix : pystr) : bool :=
  startswith (rev s) (rev suffix).

(** The sub-directories of a directory, each with its listing. *)
Fixpoint subdirs (entries : list (pystr * node))
  : list (pystr * list (pystr * node)) :=
  match entries with
  | [] => []
  | (name, Dir _ listing) :: rest => (name, listing) :: subdirs rest
  | (_, File _) :: rest => subdirs rest
  end.

(** A string that no system call takes as a path: it holds a NUL
    character, or the platform cannot encode it (a lone surrogate where
    paths are UTF-8).  The call raises [ValueError] before it looks at the
    file system. *)
Definition rejected (p : platform) (s : pystr) : bool :=
  char_in 0%N s || unencodable p s.

(** [os.walk], top down, with the default [onerror]: a directory yields
    its own path with its sub-directories, then the walks of the
    sub-directories in order; a directory that cannot be listed yields
    nothing and is not an error.  The [dirs] of a triple carry the entries
    the directory holds; the [files] of the triple are not used by the
    program. *)
Fixpoint walk (p : platform) (root : path) (n : node) {struct n}
  : list (path * list (pystr * list (pystr * node))) :=
  match n with
  | File _ => []
  | Dir _ entries =>
      if listdir_blocked p root then []
      else
        (root, subdirs entries) ::
        (fix walk_children (es : list (pystr * node)) :=
           match es with
           | [] => []
           | (name, child) :: es' =>
               walk p (root ++ [name]) child ++ walk_children es'
           end) entries
  end.

(** [os.walk(path)]: a path the system does not accept raises when the
    loop asks for the first triple; a path that is missing or is not a
    directory yields nothing. *)
Definition os_walk (p : platform) (top : pystr)
  : outcome (list (path * list (pystr * list (pystr * node)))) :=
  if rejected p top then Raise ValueError
  else
    match tree_at p top with
    | Some n => Ok (walk p [top] n)
    | None => Ok []
    end.

(** [os.listdir(dir_path)] on a directory that holds [listing]. *)
Definition os_listdir (p : platform) (dir_path : path)
    (listing : list (pystr * node)) : outcome (list (pystr * node)) :=
  if listdir_blocked p dir_path then Raise OSError else Ok listing.

(** The modification time of a file or directory. *)
Definition node_mtime (n : node) : number :=
  match n with File m => m | Dir m _ => m end.

(** [os.path.getmtime(file_path)] on the entry [n]. *)
Definition getmtime (p : platform) (file_path : path) (n : node)
  : outcome number :=
  if getmtime_blocked p file_path then Raise OSError else Ok (node_mtime n).

(** [os.makedirs(d, exist_ok=True)] *)
Definition makedirs (p : platform) (d : path) : M unit :=
  if existsb (rejected p) d then raise ValueError
  else if makedirs_blocked p d then raise OSError
  else modify (fun w => with_made_dirs (made_dirs w ++ [d]) w).

(** [datetime.now().strftime(...)]: the next reading of the clock. *)
Definition now (p : platform) : M pystr :=
  fun w => (with_tick (S (tick w)) w, Ok (clock p (tick w))).

(** [shutil.copy2(file_path, backup_path)] into an existing directory: it
    raises on a directory and on a file the platform cannot copy. *)
Definition copy2 (p : platform) (file_path : path) (n : node)
    (backup_path : path) : M unit :=
  match n with
  | File _ =>
      if copy_blocked p file_path then raise OSError
      else modify (fun w =>
             with_copies
               (copies w ++ [{| src := file_path; dst := backup_path |}]) w)
  | Dir _ _ => raise OSError
  end.

Definition logger (l : log_line) : M unit :=
  modify (fun w => with_log (log w ++ [l]) w).

End Lib.

Import Lib.

(* ===================================================================== *)
(** ** The class [SoulsSaveBackup] *)
(* ===================================================================== *)

Module SoulsSaveBackup.

Definition _notify (p : platform) (t : toast) : M unit :=
  modify (fun w => with_toast_requests (toast_requests w ++ [t]) w);;
  if toast_raises p then logger ErrNotifyFailed else ret tt.

(** The test on the parsed configuration, line 76. *)
Definition malformed_config (source_directories backup_directory : json) : bool :=
  negb (is_list source_directories) || negb (truthy backup_directory).

(** The test on one entry of [source_directories], line 83. *)
Definition malformed_entry (entry : json) : bool :=
  match entry with
  | JDict d =>
      negb (truthy (match assoc (str "path") d with Some v => v | None => JNull end))
      || negb (truthy (match assoc (str "name") d with Some v => v | None => JNull end))
  | _ => true
  end.

Definition _load_config_file (p : platform) : M (option json) :=
  try_except
    (config <- lift (open_and_load (config_file p));;
     source_directories <- lift (dict_get config (str "source_directories"));;
     backup_directory <- lift (dict_get config (str "backup_directory"));;
     if malformed_config source_directories backup_directory then
       logger ErrMalformedConfig;;
       modify (with_load_failed true);;
       ret None
     else
       sources <- lift (getitem config (str "source_directories"));;
       entries <- lift (iterate sources);;
       if existsb malformed_entry entries then
         logger ErrMalformedEntry;;
         modify (with_load_failed true);;
         ret None
       else ret (Some config))
    (fun e =>
       match e with
       | FileNotFoundError =>
           logger ErrConfigNotFound;; _notify p ToastConfigNotFound;; ret None
       | JSONDecodeError =>
           logger ErrConfigParse;; _notify p ToastConfigParse;; ret None
       | _ => raise e
       end).

Definition _load_state_file : M (gmap pystr number) :=
  try_except
    (f <- gets state_file;; lift (open_and_load f))
    (fun e =>
       match e with
       | FileNotFoundError => ret ∅
       | _ => raise e
       end).

Definition _save_state_file (p : platform) : M unit :=
  if state_writable p
  then modify (fun w => with_state_file (Content (state w)) w)
  else raise OSError.

Definition _init_state_and_config (p : platform) : M unit :=
  st <- _load_state_file;;
  modify (with_state st);;
  config <- _load_config_file p;;
  match config with
  | None => modify (with_load_failed true)
  | Some c => modify (with_config (Some c));; logger InfoConfigLoaded
  end.

(** The constructor; a new object has no [config] attribute yet. *)
Definition __init__ (p : platform) : M unit :=
  modify (with_load_failed false);;
  modify (with_backup_failed false);;
  modify (with_config None);;
  logger InfoStarting;;
  _init_state_and_config p.

Definition _get_last_modified (p : platform) (file_path : path) (n : node)
  : M number :=
  lift (getmtime p file_path n).

(** [file not in self.state or last_modified > self.state[file]] *)
Definition new_or_modified (st : gmap pystr number) (file : pystr)
    (last_modified : number) : bool :=
  match st !! file with
  | None => true
  | Some seen => (seen <? last_modified)%Z
  end.

(** The body of the loop over [os.listdir(dir_path)], lines 174 to 193; the
    local variables [backup_path] and [file_count] go in and come out. *)
Definition visit_file (p : platform) (base_name : json) (dir_path : path)
    (locals : path * nat) (entry : pystr * node) : M (path * nat) :=
  let '(backup_path, file_count) := locals in
  let '(file, n) := entry in
  if endswith file (str ".sl2") then
    let file_path := dir_path ++ [file] in
    last_modified <- _get_last_modified p file_path n;;
    st <- gets state;;
    if new_or_modified st file last_modified then
      logger (InfoNewOrModified base_name file);;
      makedirs p backup_path;;
      timestamp <- now p;;
      let backup_path := backup_path ++ [timestamp] in
      makedirs p backup_path;;
      logger (InfoCopying file backup_path);;
      copy2 p file_path n backup_path;;
      modify (fun w => with_state (<[file := last_modified]> (state w)) w);;
      ret (backup_path, S file_count)
    else
      logger (InfoSkipping file);;
      ret (backup_path, file_count)
  else ret (backup_path, file_count).

(** The body of the loop over [dirs], lines 169 to 193. *)
Definition visit_dir (p : platform) (base_name : json) (root : path)
    (locals : path * nat) (d : pystr * list (pystr * node)) : M (path * nat) :=
  let '(dir_name, listing) := d in
  if isdigit p dir_name then
    let dir_path := root ++ [dir_name] in
    files <- lift (os_listdir p dir_path listing);;
    for_each files (visit_file p base_name dir_path) locals
  else ret locals.

Definition _process_source_directory (p : platform) (source_path : json)
  : M nat :=
  path <- lift (getitem source_path (str "path"));;
  base_name <- lift (getitem source_path (str "name"));;
  path <- lift (os_path_expandvars p path);;
  name <- lift (make_safe_filename_of base_name);;
  cfg <- gets config;;
  cfg <- lift (match cfg with Some c => Ok c | None => Raise AttributeError end);;
  backup_directory <- lift (getitem cfg (str "backup_directory"));;
  backup_root <- lift (os_path_expandvars p backup_directory);;
  let backup_path := [backup_root; name] in
  triples <- lift (os_walk p path);;
  locals <- for_each triples
              (fun locals '(root, dirs) =>
                 for_each dirs (visit_dir p base_name root) locals)
              (backup_path, 0);;
  ret (snd locals).

(** The body of the loop over the source entries, lines 206 to 212. *)
Definition backup_entry (p : platform) (counters : nat * nat)
    (source_path : json) : M (nat * nat) :=
  let '(files_processed, files_backed_up) := counters in
  try_except
    (files_backed <- _process_source_directory p source_path;;
     ret (S files_processed, files_backed_up + files_backed))
    (fun e =>
       name <- lift (getitem source_path (str "name"));;
       logger (ErrEntryFailed name e);;
       ret (files_processed, files_backed_up)).

(** Returns [None] (no value), [Some true] or [Some false]. *)
Definition perform_backup (p : platform) : M (option bool) :=
  failed <- gets load_failed;;
  if failed then ret None
  else
    try_except
      (cfg <- gets config;;
       cfg <- lift (match cfg with Some c => Ok c | None => Raise AttributeError end);;
       sources <- lift (getitem cfg (str "source_directories"));;
       entries <- lift (iterate sources);;
       counters <- for_each entries (backup_entry p) (0, 0);;
       let '(files_processed, files_backed_up) := counters in
       if 0 <? files_processed then
         _save_state_file p;;
         logger (InfoComplete files_backed_up files_processed);;
         ret (Some true)
       else ret (Some false))
      (fun e =>
         logger (ErrBackupFailed e);;
         _notify p (ToastBackupFailed e);;
         modify (with_backup_failed true);;
         ret (Some false)).

(** The program: build the object, run one pass. *)
Definition main (p : platform) : M (option bool) :=
  __init__ p;;
  perform_backup p.

End SoulsSaveBackup.

Import SoulsSaveBackup.

(* ===================================================================== *)
(** ** Notions the properties are stated with *)
(* ===================================================================== *)

Module Notions.

(** The triples the loop over [os.walk] goes through. *)
Definition walked (p : platform) (top : pystr)
  : list (path * list (pystr * list (pystr * node))) :=
  match os_walk p top with Ok triples => triples | Raise _ => [] end.

(** The entries the engine can look at under [top], in the order of the
    walk: every entry of every sub-directory with a digit-only name that
    can be listed, with the path of that sub-directory. *)
Definition listed_in_dir (p : platform) (root : path)
    (d : pystr * list (pystr * node)) : list (path * (pystr * node)) :=
  if isdigit p (fst d) && negb (listdir_blocked p (root ++ [fst d]))
  then map (fun e => (root ++ [fst d], e)) (snd d)
  else [].

Definition listed (p : platform) (top : pystr) : list (path * (pystr * node)) :=
  flat_map (fun rd => flat_map (listed_in_dir p (fst rd)) (snd rd))
           (walked p top).

(** What the two inner loops meet, in order: an entry of a digit-named
    directory, or a digit-named directory that cannot be listed. *)
Inductive met : Type :=
| Entry (e : path * (pystr * node))
| Unlisted (dir_path : path).

Definition met_in_dir (p : platform) (root : path)
    (d : pystr * list (pystr * node)) : list met :=
  if isdigit p (fst d) then
    if listdir_blocked p (root ++ [fst d]) then [Unlisted (root ++ [fst d])]
    else map (fun e => Entry (root ++ [fst d], e)) (snd d)
  else [].

Definition plan (p : platform) (top : pystr) : list met :=
  flat_map (fun rd => flat_map (met_in_dir p (fst rd)) (snd rd))
           (walked p top).

Definition entries_of (l : list met) : list (path * (pystr * node)) :=
  flat_map (fun m => match m with Entry e => [e] | Unlisted _ => [] end) l.

(** One turn of the innermost loop on a listed entry. *)
Definition visit (p : platform) (base_name : json) (locals : path * nat)
    (e : path * (pystr * node)) : M (path * nat) :=
  visit_file p base_name (fst e) locals (snd e).

(** One turn on what the loops meet: a directory that cannot be listed
    ends the invocation where [os.listdir] is called on it. *)
Definition meet (p : platform) (base_name : json) (locals : path * nat)
    (m : met) : M (path * nat) :=
  match m with
  | Entry e => visit p base_name locals e
  | Unlisted _ => raise OSError
  end.

(** The lines of [_process_source_directory] before the walk, lines 154 to
    166: they read the entry and the configuration and change nothing.
    The result is [base_name], the expanded source path and the first
    [backup_path]. *)
Definition preamble (p : platform) (cfg : option json) (source_path : json)
  : outcome (json * pystr * path) :=
  match getitem source_path (str "path") with
  | Raise e => Raise e
  | Ok path =>
  match getitem source_path (str "name") with
  | Raise e => Raise e
  | Ok base_name =>
  match os_path_expandvars p path with
  | Raise e => Raise e
  | Ok path =>
  match make_safe_filename_of base_name with
  | Raise e => Raise e
  | Ok name =>
  match cfg with
  | None => Raise AttributeError
  | Some c =>
  match getitem c (str "backup_directory") with
  | Raise e => Raise e
  | Ok backup_directory =>
  match os_path_expandvars p backup_directory with
  | Raise e => Raise e
  | Ok backup_root => Ok (base_name, path, [backup_root; name])
  end end end end end end end.

(** One assignment [self.state[file] = last_modified] on a changed file. *)
Inductive bump : gmap pystr number -> gmap pystr number -> Prop :=
| bump_new st file t :
    st !! file = None -> bump st (<[file := t]> st)
| bump_newer st file seen t :
    st !! file = Some seen -> (seen < t)%Z -> bump st (<[file := t]> st).

(** Any number of such assignments. *)
Inductive bumps : gmap pystr number -> gmap pystr number -> Prop :=
| bumps_nil st : bumps st st
| bumps_step st1 st2 st3 : bumps st1 st2 -> bump st2 st3 -> bumps st1 st3.

(** No key is lost and no stored time goes down. *)
Definition state_le (st st' : gmap pystr number) : Prop :=
  forall file t, st !! file = Some t ->
    exists t', st' !! file = Some t' /\ (t <= t')%Z.

(** A save file: an entry whose name ends in [.sl2]. *)
Definition is_save (e : path * (pystr * node)) : bool :=
  endswith (fst (snd e)) (str ".sl2").

(** The state has seen the entry: its name is stored with a time that is
    not older than the entry. *)
Definition seen_in (st : gmap pystr number) (e : path * (pystr * node)) : Prop :=
  exists t, st !! fst (snd e) = Some t /\ (node_mtime (snd (snd e)) <= t)%Z.

(** The [name] the handler of [perform_backup] prints. *)
Definition entry_name (source_path : json) : json :=
  match getitem source_path (str "name") with Ok v => v | Raise _ => JNull end.

(** The loop of [perform_backup] as the specification words it: the engine
    is invoked on each entry in turn, from the world the previous entry
    left; an entry that raises is logged and the next one is taken.  The
    result is the outcome of every entry and the world after the last. *)
Fixpoint entries_run (p : platform) (entries : list json) (w : world)
  : list (outcome nat) * world :=
  match entries with
  | [] => ([], w)
  | e :: rest =>
      let '(w1, r) := _process_source_directory p e w in
      let w2 :=
        match r with
        | Ok _ => w1
        | Raise ex => with_log (log w1 ++ [ErrEntryFailed (entry_name e) ex]) w1
        end in
      let '(rs, w3) := entries_run p rest w2 in
      (r :: rs, w3)
  end.

Definition completed {A} (r : outcome A) : bool :=
  match r with Ok _ => true | Raise _ => false end.

(** The counters of the loop: how many entries returned, and how many
    files they copied together. *)
Fixpoint tally (outcomes : list (outcome nat)) : nat * nat :=
  match outcomes with
  | [] => (0, 0)
  | Ok n :: rest => let '(k, total) := tally rest in (S k, n + total)
  | Raise _ :: rest => tally rest
  end.

(** A configuration [_load_config_file] accepts. *)
Definition accepted (cfg : json) (entries : list json) : Prop :=
  getitem cfg (str "source_directories") = Ok (JList entries) /\
  existsb malformed_entry entries = false.

(** The destinations of a run of copies: the [i]-th copy goes to [base]
    extended with the first [i + 1] clock readings taken from [t0] on. *)
Definition nested_from (p : platform) (base : path) (t0 : nat)
    (new : list copy) : Prop :=
  forall i c, new !! i = Some c ->
    dst c = base ++ map (clock p) (seq t0 (S i)).


(** Nothing under [top] fails to be read: the system accepts the path,
    every digit-named directory the walk finds can be listed, and the time
    of every save file in them can be read. *)
Definition readable (p : platform) (top : pystr) : Prop :=
  rejected p top = false /\
  plan p top = map Entry (listed p top) /\
  forall e, In e (listed p top) -> is_save e = true ->
    getmtime_blocked p (fst e ++ [fst (snd e)]) = false.

(** An entry the engine gives up before it looks at a file: its first
    lines raise (a path, a name or a backup directory that is not a
    string), or the system does not accept its path. *)
Definition refused (p : platform) (cfg : option json) (entry : json) : Prop :=
  match preamble p cfg entry with
  | Raise _ => True
  | Ok (_, top, _) => rejected p top = true
  end.

End Notions.

Import Notions.

Module Startup.

(** What [_load_config_file] returns, as a function of the file alone. *)
Definition config_outcome (p : platform) : outcome (option json) :=
  match config_file p with
  | Absent => Ok None
  | Corrupt => Ok None
  | Denied => Raise OSError
  | Undecodable => Raise UnicodeDecodeError
  | TooDeep => Raise RecursionError
  | Content (JDict d) =>
      let get k := match assoc k d with Some v => v | None => JNull end in
      if malformed_config (get (str "source_directories"))
                          (get (str "backup_directory"))
      then Ok None
      else
        match get (str "source_directories") with
        | JList entries =>
            if existsb malformed_entry entries then Ok None
            else Ok (Some (JDict d))
        | _ => Ok None
        end
  | Content _ => Raise AttributeError
  end.

(** A parsed configuration that one of the two tests, on lines 76 and 83,
    rejects. *)
Definition malformed (cfg : json) : bool :=
  match cfg with
  | JDict d =>
      let get k := match assoc k d with Some v => v | None => JNull end in
      malformed_config (get (str "source_directories"))
                       (get (str "backup_directory"))
      || match get (str "source_directories") with
         | JList entries => existsb malformed_entry entries
         | _ => true
         end
  | _ => false
  end.

(** The three ways the configuration fails to load that the loader
    handles: the file is missing, its text is not JSON, or it parses to a
    malformed object. *)
Inductive config_failure (p : platform) : Prop :=
| ConfigNotFound : config_file p = Absent -> config_failure p
| ConfigParseError : config_file p = Corrupt -> config_failure p
| ConfigMalformed cfg :
    config_file p = Content cfg -> malformed cfg = true -> config_failure p.

(** The state [_load_state_file] returns for a state file that parses or
    is missing. *)
Definition stored (f : file_read (gmap pystr number)) : gmap pystr number :=
  match f with Content st => st | _ => ∅ end.

(** The state file loads: it is missing or it parses. *)
Definition loads {A} (f : file_read A) : Prop :=
  f = Absent \/ exists a, f = Content a.

End Startup.

Import Startup.

(* ===================================================================== *)
(** ** A concrete installation, used to exercise the statements *)
(* ===================================================================== *)

Module Scenario.

(** Two configured games: the first entry has a number for a path, the
    second is well formed. *)
Definition bad_entry : json :=
  JDict [(str "path", JNum 5); (str "name", JStr (str "Bad"))].
Definition good_entry : json :=
  JDict [(str "path", JStr (str "S")); (str "name", JStr (str "DS3"))].
Definition cfg : json :=
  JDict [(str "backup_directory", JStr (str "B"));
         (str "source_directories", JList [bad_entry; good_entry])].

(** The saves under [S]: two save files in the slot directory [0110], and
    a save file in a directory whose name is not a number. *)
Definition saves : node :=
  Dir 0 [(str "0110",
          Dir 0 [(str "DS30000.sl2", File 5);
                 (str "DS30001.sl2", File 7);
                 (str "notes.txt", File 1)]);
         (str "old", Dir 0 [(str "DS30000.sl2", File 3)])].

Definition pc : platform :=
  {| config_file := Content cfg;
     expandvars := fun s => s;
     unicode_digit := fun c => char_in c digits;
     clock := fun n => str "2024_01_01__12000" ++ [N.of_nat (48 + n)];
     tree_at := fun s => if pystr_eqb s (str "S") then Some saves else None;
     unencodable := fun _ => false;
     listdir_blocked := fun _ => false;
     getmtime_blocked := fun _ => false;
     makedirs_blocked := fun _ => false;
     copy_blocked := fun _ => false;
     state_writable := true;
     toast_raises := false |}.

(** The same machine with a configuration file that holds an empty
    object. *)
Definition pc_empty_config : platform :=
  {| config_file := Content (JDict []);
     expandvars := expandvars pc; unicode_digit := unicode_digit pc;
     clock := clock pc; tree_at := tree_at pc;
     unencodable := unencodable pc; listdir_blocked := listdir_blocked pc;
     getmtime_blocked := getmtime_blocked pc;
     makedirs_blocked := makedirs_blocked pc;
     copy_blocked := copy_blocked pc;
     state_writable := true; toast_raises := false |}.

(** A slot directory that holds a save file and, after it, a directory
    whose name also ends in [.sl2]; one configured game. *)
Definition saves_with_dir : node :=
  Dir 0 [(str "0110",
          Dir 0 [(str "DS30000.sl2", File 5);
                 (str "DS30001.sl2", Dir 7 [])])].

Definition pc_with_dir : platform :=
  {| config_file :=
       Content (JDict [(str "backup_directory", JStr (str "B"));
                       (str "source_directories", JList [good_entry])]);
     expandvars := expandvars pc; unicode_digit := unicode_digit pc;
     clock := clock pc;
     tree_at := fun s => if pystr_eqb s (str "S") then Some saves_with_dir else None;
     unencodable := unencodable pc; listdir_blocked := listdir_blocked pc;
     getmtime_blocked := getmtime_blocked pc;
     makedirs_blocked := makedirs_blocked pc;
     copy_blocked := copy_blocked pc;
     state_writable := true; toast_raises := false |}.

(** Before the first run: nothing copied, no state file. *)
Definition fresh : world :=
  {| load_failed := false; backup_failed := false; config := None;
     state := ∅; tick := 0; made_dirs := []; copies := []; log := [];
     toast_requests := []; state_file := Absent |}.

(** The object after a successful load, with one file already seen. *)
Definition loaded : world :=
  with_state {[ str "DS30000.sl2" := 5%Z ]} (with_config (Some cfg) fresh).

End Scenario.

(* ===================================================================== *)
(** ** Well-formed configurations *)
(* ===================================================================== *)

Module WellFormed.

(** An entry of [source_directories] that passes the test on line 83: an
    object whose [path] and [name] are present and true in a condition. *)
Definition well_formed_entry (e : json) : Prop :=
  exists d path name,
    e = JDict d /\
    assoc (str "path") d = Some path /\ truthy path = true /\
    assoc (str "name") d = Some name /\ truthy name = true.

(** A parsed configuration that passes both tests: an object whose
    [source_directories] is a list of well-formed entries and whose
    [backup_directory] is present and true in a condition. *)
Definition well_formed (cfg : json) (entries : list json) : Prop :=
  exists d backup_directory,
    cfg = JDict d /\
    assoc (str "source_directories") d = Some (JList entries) /\
    assoc (str "backup_directory") d = Some backup_directory /\
    truthy backup_directory = true /\
    Forall well_formed_entry entries.

(** A copy that the engine is entitled to make under [top]: its source is
    a regular file listed in a digit-named directory of the walk, with a
    name ending in [.sl2], that the platform can copy. *)
Definition copied_from (p : platform) (top : pystr) (c : copy) : Prop :=
  exists dir_path file mtime,
    In (dir_path, (file, File mtime)) (listed p top) /\
    endswith file (str ".sl2") = true /\
    copy_blocked p (dir_path ++ [file]) = false /\
    src c = dir_path ++ [file].

End WellFormed.

Import WellFormed.

(** Further concrete cases on the installation of [Scenario]. *)
Module Cases.

(** The object once the configuration is loaded, before the first run. *)
Definition configured : world :=
  with_config (Some Scenario.cfg) Scenario.fresh.


(** A configuration that lists no game. *)
Definition cfg_no_sources : json :=
  JDict [(str "backup_directory", JStr (str "B"));
         (str "source_directories", JList [])].


(** The first invocation of the engine on the well-formed entry. *)
Definition first_invocation : world * outcome nat :=
  _process_source_directory Scenario.pc Scenario.good_entry configured.

End Cases.

(* ===================================================================== *)
(** * Properties of the sanitizer *)
(* ===================================================================== *)

Section SanitizerFacts.

Lemma lstrip_incl chars s c : In c (lstrip chars s) -> In c s.
Proof.
  induction s as [|d s IH]; simpl; [tauto|].
  destruct (char_in d chars); simpl; auto.
Qed.

Lemma rstrip_incl chars s c : In c (rstrip chars s) -> In c s.
Proof.
  unfold rstrip. intros H.
  apply in_rev in H. apply lstrip_incl in H. now apply in_rev.
Qed.

Lemma strip_incl chars s c : In c (strip chars s) -> In c s.
Proof.
  unfold strip. intros H. apply rstrip_incl in H. now apply lstrip_incl in H.
Qed.

Lemma cleaned_incl filename c :
  In c (cleaned filename) ->
  In c filename /\ forbidden c = false /\ char_in c printable = true.
Proof.
  unfold cleaned, keep_printable, remove_forbidden. intros H.
  apply strip_incl in H.
  apply filter_In in H as [H Hp]. apply filter_In in H as [H Hf].
  repeat split; auto. now apply negb_true_iff.
Qed.

Lemma in_take_In {A} n (l : list A) x : In x (take n l) -> In x l.
Proof.
  revert l. induction n as [|n IH]; intros [|y l]; simpl; try tauto.
  intros [->|H]; auto.
Qed.

(** Every character of the result is a character of [string.printable]:
    this is what step 2 ensures, and the later steps only add underscores
    and the letters of the placeholder. *)
Lemma make_safe_filename_printable filename c :
  In c (make_safe_filename filename) -> char_in c printable = true.
Proof.
  unfold make_safe_filename, truncate. intros H. apply in_take_In in H.
  fold (cleaned filename) in H.
  unfold guard_empty in H.
  destruct (guard_reserved (cleaned filename)) as [|d r] eqn:E.
  - vm_compute in H. vm_compute. intuition (subst; reflexivity).
  - rewrite <- E in H. clear E d r. unfold guard_reserved in H.
    destruct (is_reserved _).
    + destruct H as [<-|H]; [reflexivity|].
      now apply cleaned_incl in H.
    + now apply cleaned_incl in H.
Qed.

Lemma filter_all_true {A} (f : A -> bool) l :
  forallb f l = true -> List.filter f l = l.
Proof.
  induction l as [|x l IH]; simpl; [reflexivity|].
  intros H. apply andb_true_iff in H as [Hx Hl]. rewrite Hx. f_equal. auto.
Qed.

Lemma filter_all_false {A} (f : A -> bool) l :
  forallb f l = true -> List.filter (fun x => negb (f x)) l = [].
Proof.
  induction l as [|x l IH]; simpl; [reflexivity|].
  intros H. apply andb_true_iff in H as [Hx Hl]. rewrite Hx. simpl. auto.
Qed.

Lemma lstrip_id chars s :
  match s with c :: _ => char_in c chars = false | [] => True end ->
  lstrip chars s = s.
Proof. destruct s as [|c s]; simpl; [reflexivity|]. now intros ->. Qed.

Lemma strip_id chars s :
  match s with c :: _ => char_in c chars = false | [] => True end ->
  match rev s with c :: _ => char_in c chars = false | [] => True end ->
  strip chars s = s.
Proof.
  intros Hl Hr. unfold strip, rstrip.
  rewrite (lstrip_id chars s Hl), (lstrip_id chars (rev s) Hr).
  apply rev_involutive.
Qed.

Lemma valid_name_fixed s :
  valid_name s = true -> make_safe_filename s = take 255 s.
Proof.
  unfold valid_name. intros H.
  repeat (apply andb_true_iff in H as [H ?]).
  unfold make_safe_filename, truncate, remove_forbidden, keep_printable.
  rewrite (filter_all_true _ s) by assumption.
  rewrite (filter_all_true _ s) by assumption.
  rewrite strip_id.
  - unfold guard_reserved.
    match goal with Hr : negb _ = true |- _ => apply negb_true_iff in Hr; rewrite Hr end.
    destruct s; [discriminate|reflexivity].
  - destruct s; [exact I|]. now apply negb_true_iff.
  - destruct (rev s); [exact I|]. now apply negb_true_iff.
Qed.

(** C6.  Step 2 does not drop every character outside the printable ASCII
    range: the line feed (code point 10) and the tab (code point 9) are in
    [string.printable], so the three-character names a-LF-b and a-TAB-b
    come out of the sanitizer unchanged, control character included. *)
Theorem C6_control_characters_survive :
  printable_ascii 10 = false /\ printable_ascii 9 = false /\
  make_safe_filename [97; 10; 98]%N = [97; 10; 98]%N /\
  make_safe_filename [97; 9; 98]%N = [97; 9; 98]%N.
Proof. repeat split; vm_compute; reflexivity. Qed.

Lemma filter_filter {A} (f g : A -> bool) l :
  List.filter f (List.filter g l) = List.filter (fun x => f x && g x) l.
Proof.
  induction l as [|x l IH]; simpl; [reflexivity|].
  destruct (g x); simpl.
  - destruct (f x); simpl; now rewrite IH.
  - rewrite andb_false_r. exact IH.
Qed.

(** [string.printable] as a range: the ASCII characters from space to
    tilde, and the five control characters from tab to carriage return. *)
Lemma char_in_printable_range c :
  char_in c printable =
  ((32 <=? c)%N && (c <=? 126)%N || (9 <=? c)%N && (c <=? 13)%N).
Proof.
  destruct (N.le_gt_cases c 126) as [Hle|Hgt].
  - assert (Hall : forallb
      (fun n => Bool.eqb (char_in (N.of_nat n) printable)
                  ((32 <=? N.of_nat n)%N && (N.of_nat n <=? 126)%N
                   || (9 <=? N.of_nat n)%N && (N.of_nat n <=? 13)%N))
      (seq 0 127) = true) by (vm_compute; reflexivity).
    rewrite forallb_forall in Hall.
    specialize (Hall (N.to_nat c)). rewrite N2Nat.id in Hall.
    apply Bool.eqb_prop. apply Hall. apply in_seq. lia.
  - replace (c <=? 126)%N with false by (symmetry; apply N.leb_gt; lia).
    replace (c <=? 13)%N with false by (symmetry; apply N.leb_gt; lia).
    rewrite !andb_false_r. change (false || false) with false.
    destruct (char_in c printable) eqn:E; [|reflexivity].
    unfold char_in in E. apply existsb_exists in E as (x & Hx & He).
    apply N.eqb_eq in He. subst x.
    assert (Hb : forallb (fun x => (x <=? 126)%N) printable = true)
      by (vm_compute; reflexivity).
    rewrite forallb_forall in Hb. specialize (Hb c Hx).
    apply N.leb_le in Hb. lia.
Qed.

Lemma lstrip_all chars l :
  Forall (fun c => char_in c chars = true) l -> forall s,
  lstrip chars (l ++ s) = lstrip chars s.
Proof.
  induction 1 as [|c l Hc _ IH]; intros s; simpl; [reflexivity|].
  rewrite Hc. apply IH.
Qed.

(** [strip] takes a run of the characters off each end, and nothing off a
    string that neither starts nor ends with one of them. *)
Lemma strip_spec chars lead s trail :
  Forall (fun c => char_in c chars = true) lead ->
  Forall (fun c => char_in c chars = true) trail ->
  match s with c :: _ => char_in c chars = false | [] => True end ->
  match rev s with c :: _ => char_in c chars = false | [] => True end ->
  strip chars (lead ++ s ++ trail) = s.
Proof.
  intros Hlead Htrail Hfirst Hlast. unfold strip, rstrip.
  rewrite (lstrip_all chars lead Hlead).
  assert (Hrt : Forall (fun c => char_in c chars = true) (rev trail)).
  { apply List.Forall_forall. intros c Hc. apply in_rev in Hc.
    rewrite List.Forall_forall in Htrail. now apply Htrail. }
  destruct s as [|c s]; simpl app.
  - replace trail with (trail ++ []) by apply app_nil_r.
    rewrite (lstrip_all chars trail Htrail). reflexivity.
  - rewrite (lstrip_id chars (c :: s ++ trail)) by exact Hfirst.
    change (c :: s ++ trail) with ((c :: s) ++ trail).
    rewrite rev_app_distr, (lstrip_all chars (rev trail) Hrt).
    rewrite (lstrip_id chars (rev (c :: s))) by exact Hlast.
    apply rev_involutive.
Qed.

Lemma before_first_dot_stem stem rest :
  ~ In 46%N stem -> rest = [] \/ (exists t, rest = 46%N :: t) ->
  before_first_dot (stem ++ rest) = stem.
Proof.
  intros Hno Hrest. induction stem as [|c stem IH]; simpl.
  - destruct Hrest as [->|[t ->]]; reflexivity.
  - destruct (N.eqb c 46) eqn:E.
    + apply N.eqb_eq in E. exfalso. apply Hno. now left.
    + f_equal. apply IH. intros H. apply Hno. now right.
Qed.

Lemma is_reserved_In s : is_reserved s = true <-> In s reserved_names.
Proof.
  unfold is_reserved. rewrite existsb_exists. split.
  - intros (r & Hr & He). unfold pystr_eqb in He.
    apply bool_decide_eq_true in He. now subst.
  - intros H. exists s. split; [exact H|].
    unfold pystr_eqb. now apply bool_decide_eq_true.
Qed.

(** C7.  The characters of the input that are printable (space to tilde,
    tab to carriage return) and not forbidden (code points 60, 62, 58, 34,
    47, 92, 124, 63, 42), in their order, are [lead ++ s ++ trail], where
    [lead] and [trail] hold spaces and periods only and [s] neither starts
    nor ends with one: [s] is the name after character stripping and
    trimming.  Its portion before the first period is [stem].  When
    [stem], in upper case, is one of the twenty-two reserved device names,
    the result is the underscore followed by the whole of [s], cut to 255
    characters: the check reads the stripped and trimmed name, and the
    truncation comes after the prefix.  When it is none of them (and [s]
    is not empty, the case of the placeholder) the result is [s] cut to 255
    characters, without a prefix. *)
Theorem C7_reserved_name_prefixed (filename lead s trail stem rest : pystr) :
  List.filter
    (fun c => ((32 <=? c)%N && (c <=? 126)%N || (9 <=? c)%N && (c <=? 13)%N)
              && negb (existsb (N.eqb c)
                         [60; 62; 58; 34; 47; 92; 124; 63; 42]%N))
    filename = lead ++ s ++ trail ->
  Forall (fun c => c = 32%N \/ c = 46%N) lead ->
  Forall (fun c => c = 32%N \/ c = 46%N) trail ->
  match s with c :: _ => c <> 32%N /\ c <> 46%N | [] => True end ->
  match rev s with c :: _ => c <> 32%N /\ c <> 46%N | [] => True end ->
  s = stem ++ rest -> ~ In 46%N stem ->
  rest = [] \/ (exists t, rest = 46%N :: t) ->
  let reserved :=
    map str
      [ "CON"; "PRN"; "AUX"; "NUL";
        "COM1"; "COM2"; "COM3"; "COM4"; "COM5"; "COM6"; "COM7"; "COM8"; "COM9";
        "LPT1"; "LPT2"; "LPT3"; "LPT4"; "LPT5"; "LPT6"; "LPT7"; "LPT8"; "LPT9"
      ]%string in
  (In (upper stem) reserved ->
   make_safe_filename filename = take 255 (95%N :: s)) /\
  (~ In (upper stem) reserved -> s <> [] ->
   make_safe_filename filename = take 255 s).
Proof.
  intros Hfilter Hlead Htrail Hfirst Hlast Hs Hstem Hrest reserved.
  assert (Hchars : forall c, char_in c (str ". ") = true <-> c = 32%N \/ c = 46%N).
  { intros c. unfold char_in. simpl. rewrite !orb_true_iff, !N.eqb_eq.
    intuition discriminate. }
  assert (Hnot : forall c, c <> 32%N /\ c <> 46%N -> char_in c (str ". ") = false).
  { intros c [H1 H2]. destruct (char_in c (str ". ")) eqn:E; [|reflexivity].
    apply Hchars in E. tauto. }
  assert (Hclean : cleaned filename = s).
  { unfold cleaned, keep_printable, remove_forbidden.
    rewrite filter_filter.
    rewrite (filter_ext _
      (fun c => ((32 <=? c)%N && (c <=? 126)%N || (9 <=? c)%N && (c <=? 13)%N)
                && negb (existsb (N.eqb c)
                           [60; 62; 58; 34; 47; 92; 124; 63; 42]%N))).
    2:{ intros c. rewrite char_in_printable_range. reflexivity. }
    rewrite Hfilter. apply strip_spec.
    - eapply List.Forall_impl; [|exact Hlead]. intros c. apply Hchars.
    - eapply List.Forall_impl; [|exact Htrail]. intros c. apply Hchars.
    - destruct s as [|c t]; [exact I|]. now apply Hnot.
    - destruct (rev s) as [|c t]; [exact I|]. now apply Hnot. }
  assert (Hbefore : before_first_dot s = stem).
  { rewrite Hs. now apply before_first_dot_stem. }
  unfold make_safe_filename, truncate. fold (cleaned filename).
  rewrite Hclean. unfold guard_reserved. rewrite Hbefore.
  split.
  - intros Hin. apply is_reserved_In in Hin. rewrite Hin. reflexivity.
  - intros Hin Hne.
    destruct (is_reserved (upper stem)) eqn:E.
    + apply is_reserved_In in E. destruct (Hin E).
    + destruct s; [congruence|reflexivity].
Qed.

Lemma C7_witness :
  make_safe_filename (str "  co<n.txt. ") = str "_con.txt".
Proof.
  apply (C7_reserved_name_prefixed (str "  co<n.txt. ") (str "  ")
           (str "con.txt") (str ". ") (str "con") (str ".txt")).
  - reflexivity.
  - repeat constructor.
  - constructor; [now right|]. constructor; [now left|]. constructor.
  - simpl. split; discriminate.
  - simpl. split; discriminate.
  - reflexivity.
  - simpl. intros [H|[H|[H|[]]]]; discriminate.
  - right. eexists. reflexivity.
  - vm_compute. tauto.
Defined.

(** C8.  The sanitizer returns a string for every input, and (1) no
    character of the result is forbidden; (2) an input made of forbidden
    characters only gives the placeholder; (3) a valid name of more than
    255 characters gives its first 255 characters. *)
Theorem C8_sanitizer_total (filename : pystr) :
  (forall c, In c (make_safe_filename filename) -> forbidden c = false) /\
  (forallb forbidden filename = true ->
   make_safe_filename filename = empty_token) /\
  (valid_name filename = true -> 255 < length filename ->
   make_safe_filename filename = take 255 filename /\
   length (make_safe_filename filename) = 255).
Proof.
  split; [|split].
  - intros c H. unfold make_safe_filename, truncate in H.
    apply in_take_In in H. fold (cleaned filename) in H.
    unfold guard_empty in H.
    destruct (guard_reserved (cleaned filename)) as [|d r] eqn:E.
    + vm_compute in H. vm_compute. intuition (subst; reflexivity).
    + rewrite <- E in H. clear E d r. unfold guard_reserved in H.
      destruct (is_reserved _).
      * destruct H as [<-|H]; [reflexivity|]. now apply cleaned_incl in H.
      * now apply cleaned_incl in H.
  - intros H. unfold make_safe_filename, remove_forbidden.
    rewrite filter_all_false by exact H. reflexivity.
  - intros Hv Hlen. rewrite (valid_name_fixed _ Hv). split; [reflexivity|].
    rewrite length_take. lia.
Qed.

Lemma C8_witness :
  make_safe_filename (str "<>:?*") = empty_token /\
  length (make_safe_filename (repeat 97%N 300)) = 255.
Proof.
  split.
  - apply (proj1 (proj2 (C8_sanitizer_total (str "<>:?*")))). reflexivity.
  - apply (proj2 (proj2 (C8_sanitizer_total (repeat 97%N 300)))).
    + vm_compute. reflexivity.
    + simpl. lia.
Defined.

End SanitizerFacts.

(* ===================================================================== *)
(** * Loops in the monad *)
(* ===================================================================== *)

Section Loops.

Context {A S : Type}.
Implicit Types (body : S -> A -> M S) (l : list A) (s : S) (w : world).

Lemma for_each_app body l1 l2 s w :
  for_each (l1 ++ l2) body s w = bind (for_each l1 body s) (for_each l2 body) w.
Proof.
  revert s w. induction l1 as [|x l1 IH]; intros s w; simpl.
  - reflexivity.
  - unfold bind in *. destruct (body s x w) as [w' [s'|e]]; [|reflexivity].
    apply IH.
Qed.

Lemma for_each_ext body body' l s w :
  (forall s x w, body s x w = body' s x w) ->
  for_each l body s w = for_each l body' s w.
Proof.
  intros H. revert s w. induction l as [|x l IH]; intros s w; simpl.
  - reflexivity.
  - unfold bind. rewrite H. destruct (body' s x w) as [w' [s'|e]]; auto.
Qed.

(** A loop keeps an invariant [P] of the part of the list already done,
    and leaves [Q] when the body raises. *)
Lemma for_each_invariant body (P : list A -> world -> S -> Prop)
    (Q : world -> exn -> Prop) total :
  (forall done x rest s w,
      total = done ++ x :: rest -> P done w s ->
      match body s x w with
      | (w', Ok s') => P (done ++ [x]) w' s'
      | (w', Raise ex) => Q w' ex
      end) ->
  forall s w, P [] w s ->
    match for_each total body s w with
    | (w', Ok s') => P total w' s'
    | (w', Raise ex) => Q w' ex
    end.
Proof.
  intros Hstep.
  assert (G : forall rest done s w, total = done ++ rest -> P done w s ->
            match for_each rest body s w with
            | (w', Ok s') => P total w' s'
            | (w', Raise ex) => Q w' ex
            end).
  { induction rest as [|x rest IH]; intros done s w Heq HP; simpl.
    - unfold ret. rewrite Heq, app_nil_r. exact HP.
    - unfold bind. specialize (Hstep done x rest s w Heq HP).
      destruct (body s x w) as [w' [s'|e]]; [|exact Hstep].
      apply (IH (done ++ [x])); [|exact Hstep].
      rewrite Heq, <- app_assoc. reflexivity. }
  intros s w HP. apply (G total []); auto.
Qed.

End Loops.

Lemma for_each_flat_map {A B S} (f : A -> list B) (body : S -> B -> M S) l s w :
  for_each (flat_map f l) body s w =
  for_each l (fun s x => for_each (f x) body s) s w.
Proof.
  revert s w. induction l as [|x l IH]; intros s w; simpl.
  - reflexivity.
  - rewrite for_each_app. unfold bind.
    destruct (for_each (f x) body s w) as [w' [s'|e]]; auto.
Qed.

Lemma for_each_map {A B S} (g : A -> B) (body : S -> B -> M S) l s w :
  for_each (map g l) body s w = for_each l (fun s x => body s (g x)) s w.
Proof.
  revert s w. induction l as [|x l IH]; intros s w; simpl.
  - reflexivity.
  - unfold bind. destruct (body s (g x) w) as [w' [s'|e]]; auto.
Qed.


(* ===================================================================== *)
(** * The engine as one loop over what it meets *)
(* ===================================================================== *)

Section Engine.

Variable p : platform.

Lemma entries_of_app l1 l2 :
  entries_of (l1 ++ l2) = entries_of l1 ++ entries_of l2.
Proof. unfold entries_of. now rewrite flat_map_app. Qed.

Lemma entries_of_map_Entry l : entries_of (map Entry l) = l.
Proof.
  induction l as [|e l IH]; [reflexivity|]. simpl. now rewrite IH.
Qed.

Lemma entries_of_flat_map {A} (f : A -> list met) l :
  entries_of (flat_map f l) = flat_map (fun x => entries_of (f x)) l.
Proof.
  induction l as [|x l IH]; [reflexivity|].
  simpl. now rewrite entries_of_app, IH.
Qed.

(** The entries the engine can look at are the entries it meets. *)
Lemma entries_of_plan top : entries_of (plan p top) = listed p top.
Proof.
  unfold plan, listed. rewrite entries_of_flat_map.
  apply flat_map_ext. intros [root dirs]. simpl.
  rewrite entries_of_flat_map. apply flat_map_ext. intros [dir_name listing].
  unfold met_in_dir, listed_in_dir. simpl.
  destruct (isdigit p dir_name); [|reflexivity].
  destruct (listdir_blocked p (root ++ [dir_name])); [reflexivity|].
  simpl. induction listing as [|e es IH]; [reflexivity|].
  simpl. now rewrite IH.
Qed.

Lemma walk_loop_flat base_name top locals w :
  for_each (walked p top)
    (fun locals '(root, dirs) =>
       for_each dirs (visit_dir p base_name root) locals) locals w =
  for_each (plan p top) (meet p base_name) locals w.
Proof.
  unfold plan. rewrite for_each_flat_map.
  apply for_each_ext. intros s [root dirs] w'. simpl.
  rewrite for_each_flat_map.
  apply for_each_ext. intros s' [dir_name listing] w''.
  unfold visit_dir, met_in_dir, os_listdir. simpl.
  destruct (isdigit p dir_name); [|reflexivity].
  destruct (listdir_blocked p (root ++ [dir_name])); [reflexivity|].
  rewrite for_each_map. reflexivity.
Qed.

Lemma process_source_directory_eq source_path w :
  _process_source_directory p source_path w =
  match preamble p (config w) source_path with
  | Raise ex => (w, Raise ex)
  | Ok (base_name, top, backup_path) =>
      if rejected p top then (w, Raise ValueError)
      else
        match for_each (plan p top) (meet p base_name) (backup_path, 0) w with
        | (w', Ok locals) => (w', Ok (snd locals))
        | (w', Raise ex) => (w', Raise ex)
        end
  end.
Proof.
  unfold _process_source_directory, preamble, bind, lift, gets, ret.
  destruct (getitem source_path (str "path")) as [pa|]; [|reflexivity].
  destruct (getitem source_path (str "name")) as [bn|]; [|reflexivity].
  destruct (os_path_expandvars p pa) as [top|]; [|reflexivity].
  destruct (make_safe_filename_of bn) as [name|]; [|reflexivity].
  destruct (config w) as [c|]; [|reflexivity].
  destruct (getitem c (str "backup_directory")) as [bd|]; [|reflexivity].
  destruct (os_path_expandvars p bd) as [root|]; [|reflexivity].
  rewrite <- walk_loop_flat. unfold walked, os_walk.
  destruct (rejected p top); [reflexivity|].
  destruct (tree_at p top); reflexivity.
Qed.

(** The rule the properties of the engine are proved with.  [P] holds of
    the entries gone through, the world and the local variables between
    two turns; [Q] holds of the world and the exception when the
    invocation raises after its first lines. *)
Lemma engine_invariant source_path w base_name top backup_path
    (P : list (path * (pystr * node)) -> world -> path * nat -> Prop)
    (Q : world -> exn -> Prop) :
  preamble p (config w) source_path = Ok (base_name, top, backup_path) ->
  (rejected p top = true -> Q w ValueError) ->
  (forall done dir_path rest s w0,
      plan p top = map Entry done ++ Unlisted dir_path :: rest ->
      listed p top = done ++ entries_of rest ->
      P done w0 s -> Q w0 OSError) ->
  (forall done e rest s w0,
      plan p top = map Entry done ++ Entry e :: rest ->
      listed p top = done ++ e :: entries_of rest ->
      P done w0 s ->
      match visit p base_name s e w0 with
      | (w1, Ok s1) => P (done ++ [e]) w1 s1
      | (w1, Raise ex) => Q w1 ex
      end) ->
  P [] w (backup_path, 0) ->
  match _process_source_directory p source_path w with
  | (w', Ok k) =>
      rejected p top = false /\ plan p top = map Entry (listed p top) /\
      exists s, snd s = k /\ P (listed p top) w' s
  | (w', Raise ex) => Q w' ex
  end.
Proof.
  intros Hpre Hrej Hunl Hent H0.
  rewrite process_source_directory_eq, Hpre.
  destruct (rejected p top) eqn:Er; [now apply Hrej|].
  pose proof (for_each_invariant (meet p base_name)
    (fun done w' s =>
       exists es, done = map Entry es /\ P es w' s)
    Q (plan p top)) as H.
  assert (Hstep : forall done x rest s w0,
    plan p top = done ++ x :: rest ->
    (exists es, done = map Entry es /\ P es w0 s) ->
    match meet p base_name s x w0 with
    | (w1, Ok s1) => exists es, done ++ [x] = map Entry es /\ P es w1 s1
    | (w1, Raise ex) => Q w1 ex
    end).
  { intros done x rest s w0 Heq (es & -> & HP).
    destruct x as [e|d]; simpl.
    - assert (Hl : listed p top = es ++ e :: entries_of rest).
      { rewrite <- entries_of_plan, Heq, entries_of_app, entries_of_map_Entry.
        reflexivity. }
      specialize (Hent es e rest s w0 Heq Hl HP).
      destruct (visit p base_name s e w0) as [w1 [s1|ex]]; [|exact Hent].
      exists (es ++ [e]). split; [|exact Hent].
      rewrite map_app. reflexivity.
    - unfold raise. eapply Hunl; [exact Heq| |exact HP].
      rewrite <- entries_of_plan, Heq, entries_of_app, entries_of_map_Entry.
      reflexivity. }
  specialize (H Hstep (backup_path, 0) w
                (ex_intro _ [] (conj eq_refl H0))).
  destruct (for_each (plan p top) (meet p base_name) (backup_path, 0) w)
    as [w' [s'|ex]]; [|exact H].
  destruct H as (es & Hes & HP).
  assert (es = listed p top).
  { rewrite <- entries_of_plan, Hes, entries_of_map_Entry. reflexivity. }
  subst es. split; [reflexivity|]. split; [exact Hes|].
  exists s'. split; [reflexivity|exact HP].
Qed.

(** What every turn keeps, the invocation keeps, whether it returns or
    raises. *)
Lemma engine_keeps (I : world -> Prop) source_path w :
  I w ->
  (forall base_name s e w0, I w0 -> I (fst (visit p base_name s e w0))) ->
  I (fst (_process_source_directory p source_path w)).
Proof.
  intros H0 Hstep.
  destruct (preamble p (config w) source_path) as [[[bn top] bp]|ex] eqn:Hpre.
  2:{ rewrite process_source_directory_eq, Hpre. exact H0. }
  pose proof (engine_invariant source_path w bn top bp
                (fun _ w0 _ => I w0) (fun w1 _ => I w1) Hpre) as H.
  specialize (H ltac:(intros _; exact H0)).
  specialize (H ltac:(intros done d rest s w0 _ _ HI; exact HI)).
  specialize (H ltac:(intros done e rest s w0 _ _ HI;
                      specialize (Hstep bn s e w0 HI);
                      destruct (visit p bn s e w0) as [w1 [s1|ex]];
                      exact Hstep)).
  specialize (H H0).
  destruct (_process_source_directory p source_path w) as [w' [k|ex]].
  - destruct H as (_ & _ & s & _ & H). exact H.
  - exact H.
Qed.

End Engine.

(* ===================================================================== *)
(** * One listed entry *)
(* ===================================================================== *)

Section Step.

Variable p : platform.

Local Ltac grown :=
  first [ exists []; rewrite app_nil_r; reflexivity
        | rewrite <- ?app_assoc; eexists; reflexivity ].
Local Ltac frame :=
  simpl; split; [reflexivity|]; split; [reflexivity|]; split; [reflexivity|];
  split; [grown|]; split; [grown|].

(** What one turn of the innermost loop does, case by case: the entry is
    passed over, it is copied, or the turn raises. *)
Lemma visit_cases base_name backup_path file_count dir_path file n w :
  let e := (dir_path, (file, n)) in
  let '(w', r) := visit p base_name (backup_path, file_count) e w in
  config w' = config w /\ state_file w' = state_file w /\
  load_failed w' = load_failed w /\
  (exists l, log w' = log w ++ l) /\
  (exists l, made_dirs w' = made_dirs w ++ l) /\
  ( (* not a save file, or a save file that has not changed *)
    ((is_save e = false \/
      (getmtime_blocked p (dir_path ++ [file]) = false /\
       new_or_modified (state w) file (node_mtime n) = false)) /\
     r = Ok (backup_path, file_count) /\
     state w' = state w /\ copies w' = copies w /\ tick w' = tick w /\
     made_dirs w' = made_dirs w)
    \/
    (* a changed save file that is copied *)
    (is_save e = true /\
     getmtime_blocked p (dir_path ++ [file]) = false /\
     new_or_modified (state w) file (node_mtime n) = true /\
     (exists mtime, n = File mtime) /\
     copy_blocked p (dir_path ++ [file]) = false /\
     r = Ok (backup_path ++ [clock p (tick w)], S file_count) /\
     copies w' = copies w ++
       [{| src := dir_path ++ [file];
           dst := backup_path ++ [clock p (tick w)] |}] /\
     state w' = <[file := node_mtime n]> (state w) /\
     tick w' = S (tick w) /\
     made_dirs w' =
       made_dirs w ++ [backup_path; backup_path ++ [clock p (tick w)]])
    \/
    (* a save file on which a call of the library raises *)
    (is_save e = true /\
     (getmtime_blocked p (dir_path ++ [file]) = true \/
      new_or_modified (state w) file (node_mtime n) = true) /\
     (r = Raise OSError \/ r = Raise ValueError) /\
     copies w' = copies w /\ state w' = state w) ).
Proof.
  unfold visit, visit_file, is_save. simpl.
  destruct (endswith file (str ".sl2")) eqn:Hs; simpl.
  2:{ frame. left. split; [now left|]. repeat split; reflexivity. }
  unfold _get_last_modified, getmtime.
  unfold bind at 1. unfold lift at 1.
  destruct (getmtime_blocked p (dir_path ++ [file])) eqn:Hg.
  { frame. right. right. split; [reflexivity|]. split; [now left|].
    split; [now left|]. split; reflexivity. }
  unfold bind at 1. unfold gets at 1.
  destruct (new_or_modified (state w) file (node_mtime n)) eqn:Hc.
  2:{ unfold bind, logger, modify, ret. frame.
      left. split; [right; split; reflexivity|].
      repeat split; reflexivity. }
  unfold bind at 1. unfold logger at 1, modify at 1.
  unfold bind at 1. unfold makedirs at 1.
  destruct (existsb (rejected p) backup_path) eqn:Hr1.
  { unfold raise. frame. right. right. split; [reflexivity|].
    split; [now right|]. split; [now right|]. split; reflexivity. }
  destruct (makedirs_blocked p backup_path) eqn:Hm1.
  { unfold raise. frame. right. right. split; [reflexivity|].
    split; [now right|]. split; [now left|]. split; reflexivity. }
  unfold modify at 1. unfold bind at 1. unfold now at 1.
  cbn [tick with_tick with_made_dirs with_log].
  unfold bind at 1. unfold makedirs at 1.
  destruct (existsb (rejected p) (backup_path ++ [clock p (tick w)])) eqn:Hr2.
  { unfold raise. frame. right. right. split; [reflexivity|].
    split; [now right|]. split; [now right|]. split; reflexivity. }
  destruct (makedirs_blocked p (backup_path ++ [clock p (tick w)])) eqn:Hm2.
  { unfold raise. frame. right. right. split; [reflexivity|].
    split; [now right|]. split; [now left|]. split; reflexivity. }
  unfold modify at 1. unfold bind at 1. unfold logger at 1, modify at 1.
  unfold bind at 1. unfold copy2.
  destruct n as [m|m es].
  - destruct (copy_blocked p (dir_path ++ [file])) eqn:Hb.
    + unfold raise. frame. right. right. split; [reflexivity|].
      split; [now right|]. split; [now left|]. split; reflexivity.
    + unfold modify, bind, ret. frame. right. left.
      split; [reflexivity|]. split; [reflexivity|]. split; [reflexivity|].
      split; [eexists; reflexivity|]. split; [reflexivity|].
      split; [reflexivity|]. split; [reflexivity|]. split; [reflexivity|].
      split; [reflexivity|]. rewrite <- app_assoc. reflexivity.
  - unfold raise. frame. right. right. split; [reflexivity|].
    split; [now right|]. split; [now left|]. split; reflexivity.
Qed.

End Step.

(* ===================================================================== *)
(** * Change detection, the state and the backup path *)
(* ===================================================================== *)

Section EngineFacts.

Variable p : platform.




End EngineFacts.


Section StateGrowth.

Lemma bump_state_le st st' : bump st st' -> state_le st st'.
Proof.
  intros [s file t Hnone|s file seen t Hsome Hlt] f u Hf.
  - destruct (decide (file = f)) as [->|Hne]; [congruence|].
    exists u. rewrite lookup_insert_ne by assumption. split; [assumption|lia].
  - destruct (decide (file = f)) as [->|Hne].
    + exists t. rewrite lookup_insert_eq. split; [reflexivity|].
      assert (u = seen) by congruence. lia.
    + exists u. rewrite lookup_insert_ne by assumption. split; [assumption|lia].
Qed.

Lemma state_le_refl st : state_le st st.
Proof. intros f t H. exists t. split; [assumption|lia]. Qed.

Lemma state_le_trans st1 st2 st3 :
  state_le st1 st2 -> state_le st2 st3 -> state_le st1 st3.
Proof.
  intros H12 H23 f t H. destruct (H12 f t H) as (t2 & H2 & Hle2).
  destruct (H23 f t2 H2) as (t3 & H3 & Hle3). exists t3. split; [assumption|lia].
Qed.

Lemma bumps_state_le st st' : bumps st st' -> state_le st st'.
Proof.
  induction 1 as [st|st1 st2 st3 _ IH Hb].
  - apply state_le_refl.
  - eapply state_le_trans; [exact IH|]. now apply bump_state_le.
Qed.

Lemma bumps_trans st1 st2 st3 : bumps st1 st2 -> bumps st2 st3 -> bumps st1 st3.
Proof.
  intros H12 H23. induction H23 as [st|sa sb sc _ IH Hb]; [assumption|].
  eapply bumps_step; [apply IH; assumption|assumption].
Qed.

Lemma new_or_modified_bump st file t :
  new_or_modified st file t = true -> bump st (<[file := t]> st).
Proof.
  unfold new_or_modified. destruct (st !! file) as [seen|] eqn:E.
  - intros H. apply Z.ltb_lt in H. eapply bump_newer; eassumption.
  - intros _. now apply bump_new.
Qed.

(** One turn of the loop grows the state and keeps the configuration,
    whether it returns or raises. *)
Lemma visit_bumps p base_name locals e w :
  let '(w', _) := visit p base_name locals e w in
  bumps (state w) (state w') /\ config w' = config w /\
  state_file w' = state_file w.
Proof.
  destruct locals as [bp n]. destruct e as [dp [file nd]].
  pose proof (visit_cases p base_name bp n dp file nd w) as H.
  cbv zeta in H.
  destruct (visit p base_name (bp, n) (dp, (file, nd)) w) as [w' r].
  destruct H as (Hc & Hf & _ & _ & _ & H). split; [|split; assumption].
  destruct H as [(_ & _ & Hst & _)
                |[(_ & _ & Hn & _ & _ & _ & _ & Hst & _)
                 |(_ & _ & _ & _ & Hst)]];
    rewrite Hst; try apply bumps_nil.
  eapply bumps_step; [apply bumps_nil|]. now apply new_or_modified_bump.
Qed.

Lemma engine_bumps p source_path w :
  let '(w', _) := _process_source_directory p source_path w in
  bumps (state w) (state w') /\ config w' = config w /\
  state_file w' = state_file w.
Proof.
  pose proof (engine_keeps p
    (fun w0 => bumps (state w) (state w0) /\ config w0 = config w /\
               state_file w0 = state_file w) source_path w) as H.
  specialize (H ltac:(split; [apply bumps_nil|split; reflexivity])).
  specialize (H ltac:(
    intros bn s x w0 (Hb & Hc & Hf);
    pose proof (visit_bumps p bn s x w0) as Hv;
    destruct (visit p bn s x w0) as [w1 r1];
    destruct Hv as (Hb1 & Hc1 & Hf1); simpl;
    (split; [eapply bumps_trans; eassumption|split; congruence]))).
  destruct (_process_source_directory p source_path w) as [w' r]. exact H.
Qed.


End StateGrowth.

(** An invocation that raises keeps what it assigned before: the engine
    copies the save file, fails on the directory next to it, and the state
    it leaves holds the time of the copied file. *)
Lemma failed_invocation_keeps_updates :
  let '(w', r) :=
    _process_source_directory Scenario.pc_with_dir Scenario.good_entry
      (with_config (Some Scenario.cfg) Scenario.fresh) in
  r = Raise OSError /\ state w' = {[ str "DS30000.sl2" := 5%Z ]}.
Proof. vm_compute. split; reflexivity. Qed.

Section BackupPath.

Lemma nested_from_snoc p base t0 new c :
  nested_from p base t0 new ->
  dst c = base ++ map (clock p) (seq t0 (S (length new))) ->
  nested_from p base t0 (new ++ [c]).
Proof.
  intros Hn Hc i c' Hi.
  destruct (decide (i < length new)) as [Hlt|Hge].
  - rewrite lookup_app_l in Hi by assumption. now apply Hn.
  - rewrite lookup_app_r in Hi by lia.
    destruct (i - length new) as [|k] eqn:E; simpl in Hi; [|discriminate].
    injection Hi as <-. replace i with (length new) by lia. exact Hc.
Qed.

Lemma engine_nests p source_path cfg bd name w :
  config w = Some cfg ->
  getitem cfg (str "backup_directory") = Ok (JStr bd) ->
  getitem source_path (str "name") = Ok (JStr name) ->
  let '(w', _) := _process_source_directory p source_path w in
  exists new, copies w' = copies w ++ new /\
    nested_from p [expandvars p bd; make_safe_filename name] (tick w) new.
Proof.
  intros Hcfg Hbd Hname.
  set (base := [expandvars p bd; make_safe_filename name]).
  assert (Hnil : nested_from p base (tick w) []).
  { intros i c Hi. discriminate. }
  destruct (preamble p (config w) source_path) as [[[bn top] bp]|ex] eqn:Hpre.
  2:{ rewrite process_source_directory_eq, Hpre. exists [].
      rewrite app_nil_r. auto. }
  assert (Hbp : bp = base).
  { unfold preamble in Hpre. rewrite Hcfg, Hbd, Hname in Hpre. simpl in Hpre.
    destruct (getitem source_path (str "path")) as [pa|]; [|discriminate].
    destruct (os_path_expandvars p pa); [|discriminate].
    now injection Hpre as _ _ <-. }
  subst bp.
  pose proof (engine_invariant p source_path w bn top base
    (fun _ w' (s : path * nat) =>
       exists new, copies w' = copies w ++ new /\
         nested_from p base (tick w) new /\
         tick w' = tick w + length new /\
         fst s = base ++ map (clock p) (seq (tick w) (length new)))
    (fun w' _ => exists new, copies w' = copies w ++ new /\
         nested_from p base (tick w) new)
    Hpre) as H.
  specialize (H ltac:(intros _; exists []; rewrite app_nil_r; auto)).
  specialize (H ltac:(intros done d rest s w0 _ _ (new & Hco & Hn & _);
                      exists new; auto)).
  assert (Hstep : forall done x rest s w0,
    plan p top = map Entry done ++ Entry x :: rest ->
    listed p top = done ++ x :: entries_of rest ->
    (exists new, copies w0 = copies w ++ new /\
         nested_from p base (tick w) new /\
         tick w0 = tick w + length new /\
         fst s = base ++ map (clock p) (seq (tick w) (length new))) ->
    match visit p bn s x w0 with
    | (w1, Ok s1) =>
        exists new, copies w1 = copies w ++ new /\
         nested_from p base (tick w) new /\
         tick w1 = tick w + length new /\
         fst s1 = base ++ map (clock p) (seq (tick w) (length new))
    | (w1, Raise _) =>
        exists new, copies w1 = copies w ++ new /\
         nested_from p base (tick w) new
    end).
  { intros done [dp [file nd]] rest [bp n] w0 _ _ (new & Hco & Hn & Ht & Hbp).
    simpl in Hbp.
    pose proof (visit_cases p bn bp n dp file nd w0) as Hv.
    cbv zeta in Hv.
    destruct (visit p bn (bp, n) (dp, (file, nd)) w0) as [w1 r].
    destruct Hv as (_ & _ & _ & _ & _ & Hv).
    destruct Hv as [(_ & -> & _ & Hco1 & Ht1 & _)
                   |[(_ & _ & _ & _ & _ & -> & Hco1 & _ & Ht1 & _)
                    |(_ & _ & Hr & Hco1 & _)]].
    - exists new. simpl. split; [congruence|]. split; [assumption|].
      split; [congruence|assumption].
    - exists (new ++ [{| src := dp ++ [file]; dst := bp ++ [clock p (tick w0)] |}]).
      assert (Hd : bp ++ [clock p (tick w0)] =
                   base ++ map (clock p) (seq (tick w) (S (length new)))).
      { rewrite Hbp, Ht, seq_S, map_app. unfold base. cbn [app map]. reflexivity. }
      rewrite length_app. simpl. split; [|split; [|split]].
      + rewrite Hco1, Hco, <- app_assoc. reflexivity.
      + apply nested_from_snoc; [assumption|]. exact Hd.
      + lia.
      + rewrite Nat.add_1_r. exact Hd.
    - destruct Hr as [-> | ->]; exists new; (split; [congruence|assumption]). }
  specialize (H Hstep).
  specialize (H ltac:(exists []; rewrite app_nil_r; split; [reflexivity|];
                      split; [exact Hnil|];
                      split; [simpl; lia|reflexivity])).
  destruct (_process_source_directory p source_path w) as [w' [k|ex]].
  - destruct H as (_ & _ & s & _ & new & Hco & Hn & _). exists new. auto.
  - exact H.
Qed.

(** C2.  In one invocation of the engine the first copy goes to the base
    backup directory (backup root, sanitized name) extended with the first
    clock reading, and every later copy goes to the directory of the copy
    before it extended with the next clock reading: the path is never set
    back to the base, each changed file lands one level deeper than the one
    before, and no two files land in the same folder. *)
Theorem C2_backup_path_accumulates (p : platform) (source_path cfg : json)
    (bd name : pystr) (w : world) :
  config w = Some cfg ->
  getitem cfg (str "backup_directory") = Ok (JStr bd) ->
  getitem source_path (str "name") = Ok (JStr name) ->
  let '(w', _) := _process_source_directory p source_path w in
  exists new, copies w' = copies w ++ new /\
    (forall c, new !! 0 = Some c ->
       dst c = [expandvars p bd; make_safe_filename name; clock p (tick w)]) /\
    (forall i c c', new !! i = Some c -> new !! S i = Some c' ->
       dst c' = dst c ++ [clock p (tick w + S i)]) /\
    NoDup (map dst new).
Proof.
  intros Hcfg Hbd Hname.
  pose proof (engine_nests p source_path cfg bd name w Hcfg Hbd Hname) as H.
  destruct (_process_source_directory p source_path w) as [w' r].
  destruct H as (new & Hco & Hn). exists new. split; [exact Hco|].
  split; [|split].
  - intros c Hc. rewrite (Hn 0 c Hc). reflexivity.
  - intros i c c' Hc Hc'. rewrite (Hn _ _ Hc'), (Hn _ _ Hc).
    rewrite (seq_S (S i)), map_app, app_assoc. reflexivity.
  - change (map dst new) with (dst <$> new). apply NoDup_alt.
    intros i j d Hi Hj. rewrite list_lookup_fmap in Hi, Hj.
    destruct (new !! i) as [ci|] eqn:Ei; [|discriminate].
    destruct (new !! j) as [cj|] eqn:Ej; [|discriminate].
    simpl in Hi, Hj. injection Hi as Hi. injection Hj as Hj.
    rewrite (Hn _ _ Ei) in Hi. rewrite (Hn _ _ Ej) in Hj.
    assert (Hl : length (map (clock p) (seq (tick w) (S i))) =
                 length (map (clock p) (seq (tick w) (S j)))).
    { apply (f_equal length) in Hi, Hj. rewrite length_app in Hi, Hj. lia. }
    rewrite !length_map, !length_seq in Hl. lia.
Qed.

End BackupPath.

Lemma C2_witness :
  map dst (copies (fst (_process_source_directory Scenario.pc
                          Scenario.good_entry
                          (with_config (Some Scenario.cfg) Scenario.fresh)))) =
  [ [str "B"; str "DS3"; str "2024_01_01__120000"];
    [str "B"; str "DS3"; str "2024_01_01__120000"; str "2024_01_01__120001"] ].
Proof.
  pose proof (C2_backup_path_accumulates Scenario.pc Scenario.good_entry
                Scenario.cfg (str "B") (str "DS3")
                (with_config (Some Scenario.cfg) Scenario.fresh)
                eq_refl eq_refl eq_refl) as H.
  destruct (_process_source_directory _ _ _) as [w' r] eqn:E.
  destruct H as (new & Hco & H0 & HS & _).
  assert (Hlen : length (copies w') = 2).
  { apply (f_equal (fun x => length (copies (fst x)))) in E.
    simpl in E. rewrite <- E. vm_compute. reflexivity. }
  simpl in Hco. subst new. simpl fst.
  destruct (copies w') as [|c0 [|c1 [|c2 l]]]; try discriminate.
  simpl. rewrite (HS 0 c0 c1 eq_refl eq_refl), (H0 c0 eq_refl). reflexivity.
Defined.

(* ===================================================================== *)
(** * Loading the state and the configuration *)
(* ===================================================================== *)

Section Loading.

Variable p : platform.

Lemma notify_frame t w :
  let '(w', r) := _notify p t w in
  r = Ok tt /\ toast_requests w' = toast_requests w ++ [t] /\
  copies w' = copies w /\ state w' = state w /\ state_file w' = state_file w /\
  config w' = config w /\ load_failed w' = load_failed w /\ tick w' = tick w.
Proof.
  unfold _notify, bind, modify, logger, ret. simpl.
  destruct (toast_raises p); simpl; repeat split; reflexivity.
Qed.

(** The configuration loader: its result depends on the file only; it
    leaves the state, the copies and the state file alone; it asks for a
    notification exactly when the file is missing or does not parse. *)
Lemma load_config_spec w :
  let '(w', r) := _load_config_file p w in
  r = config_outcome p /\
  copies w' = copies w /\ state w' = state w /\ state_file w' = state_file w /\
  config w' = config w /\ tick w' = tick w /\
  match r with
  | Ok (Some _) => load_failed w' = load_failed w /\ log w' = log w
  | _ => True
  end /\
  match config_file p with
  | Absent => toast_requests w' = toast_requests w ++ [ToastConfigNotFound]
  | Corrupt => toast_requests w' = toast_requests w ++ [ToastConfigParse]
  | Content _ =>
      toast_requests w' = toast_requests w /\
      (r = Ok None ->
       exists l, (l = ErrMalformedConfig \/ l = ErrMalformedEntry) /\
                 log w' = log w ++ [l])
  | _ => w' = w
  end.
Proof.
  unfold _load_config_file, config_outcome, try_except, bind, lift, logger,
    modify, ret, raise, open_and_load.
  destruct (config_file p) as [| | | | |cfg]; simpl;
    try (repeat split; reflexivity).
  - pose proof (notify_frame ToastConfigNotFound
                  (with_log (log w ++ [ErrConfigNotFound]) w)) as H.
    destruct (_notify p ToastConfigNotFound _) as [w' r].
    destruct H as (-> & Ht & Hc & Hs & Hf & Hg & _ & Hk). simpl in *.
    repeat split; assumption.
  - pose proof (notify_frame ToastConfigParse
                  (with_log (log w ++ [ErrConfigParse]) w)) as H.
    destruct (_notify p ToastConfigParse _) as [w' r].
    destruct H as (-> & Ht & Hc & Hs & Hf & Hg & _ & Hk). simpl in *.
    repeat split; assumption.
  - destruct cfg as [|b|n|s|l|d]; simpl;
      try (repeat split; try reflexivity; discriminate).
    destruct (malformed_config _ _) eqn:Hm; simpl.
    { repeat split; try reflexivity. intros _. eexists; split; [left|]; reflexivity. }
    unfold malformed_config in Hm. apply orb_false_iff in Hm as [Hl _].
    apply negb_false_iff in Hl.
    destruct (assoc (str "source_directories") d) as [sd|]; [|discriminate].
    destruct sd as [|b|n|s|entries|d']; try discriminate. simpl.
    destruct (existsb malformed_entry entries); simpl.
    + repeat split; try reflexivity. intros _. eexists; split; [right|]; reflexivity.
    + repeat split; try reflexivity. discriminate.
Qed.

Lemma config_outcome_accepted cfg :
  config_outcome p = Ok (Some cfg) ->
  config_file p = Content cfg /\ exists entries, accepted cfg entries.
Proof.
  unfold config_outcome, accepted.
  destruct (config_file p) as [| | | | |c]; try discriminate.
  destruct c as [|b|n|s|l|d]; try discriminate.
  destruct (malformed_config _ _); [discriminate|].
  simpl. destruct (assoc (str "source_directories") d) as [sd|] eqn:Ea;
    [|discriminate].
  destruct sd as [|b|n|s|entries|d']; try discriminate.
  destruct (existsb malformed_entry entries) eqn:E; [discriminate|].
  intros H. injection H as <-. split; [reflexivity|]. exists entries.
  split; [|exact E]. unfold getitem. rewrite Ea. reflexivity.
Qed.

(** The constructor. *)
Lemma init_spec w :
  let '(w', r) := __init__ p w in
  copies w' = copies w /\ state_file w' = state_file w /\ tick w' = tick w /\
  match open_and_load (state_file w) with
  | Raise FileNotFoundError | Ok _ =>
      match config_outcome p with
      | Raise e => r = Raise e
      | Ok None => r = Ok tt /\ load_failed w' = true
      | Ok (Some cfg) =>
          r = Ok tt /\ load_failed w' = false /\ config w' = Some cfg /\
          state w' = stored (state_file w) /\
          log w' = log w ++ [InfoStarting; InfoConfigLoaded]
      end /\
      match config_file p with
      | Absent => toast_requests w' = toast_requests w ++ [ToastConfigNotFound]
      | Corrupt => toast_requests w' = toast_requests w ++ [ToastConfigParse]
      | Content _ =>
          toast_requests w' = toast_requests w /\
          (config_outcome p = Ok None ->
           exists l, (l = ErrMalformedConfig \/ l = ErrMalformedEntry) /\
                     log w' = log w ++ [InfoStarting; l])
      | _ => toast_requests w' = toast_requests w
      end
  | Raise e => r = Raise e
  end.
Proof.
  unfold __init__, _init_state_and_config, _load_state_file, try_except,
    bind, modify, logger, gets, lift, ret, raise, open_and_load. simpl.
  destruct (state_file w) as [| | | | |st] eqn:Hsf; simpl;
    try (repeat split; try reflexivity; simpl; congruence).
  all: match goal with |- context [_load_config_file p ?w0] =>
         pose proof (load_config_spec w0) as H;
         destruct (_load_config_file p w0) as [w1 r1] end.
  all: destruct H as (-> & Hc & Hs & Hf & Hg & Hk & Hl & Ht).
  all: destruct (config_outcome p) as [[cfg|]|e] eqn:Hco; simpl in *.
  all: split; [exact Hc|]; split; [congruence|]; split; [exact Hk|]; split.
  all: try (destruct Hl as (Hl & Hlg); rewrite Hlg, <- app_assoc).
  all: try (repeat split; try assumption; try reflexivity; congruence).
  all: destruct (config_file p) as [| | | | |c]; try exact Ht;
         try (subst w1; reflexivity).
  all: destruct Ht as (Ht & Hlog); (split; [exact Ht|]); try discriminate.
  all: intros _; destruct (Hlog eq_refl) as (l & Hl' & Hlg); exists l;
         split; [exact Hl'|]; rewrite Hlg, <- app_assoc; reflexivity.
Qed.

(** After a constructor that returns without [load_failed], the object
    holds a configuration the loader accepted. *)
Lemma loaded_config_is_accepted w :
  let '(w', r) := __init__ p w in
  r = Ok tt -> load_failed w' = false ->
  exists cfg entries, config w' = Some cfg /\ accepted cfg entries.
Proof.
  pose proof (init_spec w) as H.
  destruct (__init__ p w) as [w' r]. destruct H as (_ & _ & _ & H).
  intros -> Hl.
  assert (H' : match config_outcome p with
               | Ok (Some cfg) => config w' = Some cfg
               | _ => False
               end).
  { destruct (state_file w); simpl in H; try discriminate H;
      destruct H as (H & _);
      (destruct (config_outcome p) as [[cfg|]|e];
       [tauto|destruct H; congruence|discriminate H]). }
  destruct (config_outcome p) as [[cfg|]|e] eqn:Hco;
    [|destruct H'|destruct H'].
  destruct (config_outcome_accepted cfg Hco) as (_ & entries & Hacc).
  exists cfg, entries. auto.
Qed.

End Loading.

Lemma config_failure_outcome (p : platform) :
  config_failure p <-> config_outcome p = Ok None.
Proof.
  unfold config_outcome, malformed. split.
  - intros [H|H|cfg H Hm]; rewrite H; try reflexivity.
    destruct cfg as [|b|n|s|l|d]; try discriminate.
    apply orb_true_iff in Hm as [Hm|Hm]; [now rewrite Hm|].
    destruct (malformed_config _ _); [reflexivity|].
    destruct (match assoc (str "source_directories") d with
              | Some v => v | None => JNull end); try reflexivity.
    now rewrite Hm.
  - destruct (config_file p) as [| | | | |cfg] eqn:E; try discriminate.
    + intros _. now apply ConfigNotFound.
    + intros _. now apply ConfigParseError.
    + intros H. apply (ConfigMalformed p cfg); [exact E|].
      destruct cfg as [|b|n|s|l|d]; try discriminate.
      unfold malformed.
      destruct (malformed_config _ _); [reflexivity|]. simpl.
      destruct (match assoc (str "source_directories") d with
                | Some v => v | None => JNull end); try reflexivity.
      destruct (existsb malformed_entry l); [reflexivity|discriminate].
Qed.

Lemma loads_open_and_load {A} (f : file_read A) :
  loads f ->
  open_and_load f = Raise FileNotFoundError \/ exists a, open_and_load f = Ok a.
Proof. intros [->|[a ->]]; [now left|right; eauto]. Qed.

(** When the state file loads (it is missing or it parses), each of the
    three configuration load failures the loader handles (missing file,
    text that is not JSON, malformed content) disables the run: the
    constructor returns with [load_failed] set and [perform_backup] then
    does nothing.  A notification is requested for a missing file and for
    text that is not JSON; malformed content is logged and no notification
    is requested. *)
Lemma config_failure_disables_run (p : platform) (w : world) :
  loads (state_file w) ->
  config_failure p ->
  let '(w', r) := __init__ p w in
  r = Ok tt /\ load_failed w' = true /\
  perform_backup p w' = (w', Ok None) /\
  (config_file p = Absent ->
   toast_requests w' = toast_requests w ++ [ToastConfigNotFound]) /\
  (config_file p = Corrupt ->
   toast_requests w' = toast_requests w ++ [ToastConfigParse]) /\
  (forall cfg, config_file p = Content cfg ->
   toast_requests w' = toast_requests w /\
   exists l, (l = ErrMalformedConfig \/ l = ErrMalformedEntry) /\
             log w' = log w ++ [InfoStarting; l]).
Proof.
  intros Hsf Hfail. apply config_failure_outcome in Hfail.
  pose proof (init_spec p w) as H.
  destruct (__init__ p w) as [w' r]. destruct H as (_ & _ & _ & H).
  rewrite Hfail in H.
  assert (H' : (r = Ok tt /\ load_failed w' = true) /\
               match config_file p with
               | Absent => toast_requests w' = toast_requests w ++ [ToastConfigNotFound]
               | Corrupt => toast_requests w' = toast_requests w ++ [ToastConfigParse]
               | Content _ =>
                   toast_requests w' = toast_requests w /\
                   (@Ok (option json) None = Ok None ->
                    exists l, (l = ErrMalformedConfig \/ l = ErrMalformedEntry) /\
                              log w' = log w ++ [InfoStarting; l])
               | _ => toast_requests w' = toast_requests w
               end).
  { destruct (loads_open_and_load _ Hsf) as [E|[st E]]; rewrite E in H;
      exact H. }
  destruct H' as ((-> & Hl) & Ht).
  split; [reflexivity|]. split; [exact Hl|]. split.
  - unfold perform_backup, bind, gets. rewrite Hl. reflexivity.
  - split; [|split].
    + intros E. rewrite E in Ht. exact Ht.
    + intros E. rewrite E in Ht. exact Ht.
    + intros cfg E. rewrite E in Ht. destruct Ht as (Ht & Hlog).
      split; [exact Ht|]. now apply Hlog.
Qed.

(** C3.  Not every configuration load failure triggers a notification: a
    configuration file holding the empty JSON object is a malformed
    configuration; loading it logs the error and disables the run
    ([load_failed] is set and [perform_backup] returns at once), and no
    notification is requested. *)
Theorem C3_malformed_config_not_notified :
  let '(w', r) := __init__ Scenario.pc_empty_config Scenario.fresh in
  config_failure Scenario.pc_empty_config /\
  r = Ok tt /\ load_failed w' = true /\
  log w' = [InfoStarting; ErrMalformedConfig] /\
  toast_requests w' = [] /\
  perform_backup Scenario.pc_empty_config w' = (w', Ok None).
Proof.
  vm_compute. repeat split; try reflexivity.
  apply (ConfigMalformed _ (JDict [])); reflexivity.
Qed.

(** C9.  A missing state file gives the empty state, with no error, no log
    line and no notification; a state file that does not parse makes the
    loader raise the parse error, which the constructor does not catch, so
    the program ends with that exception before any backup. *)
Theorem C9_state_file_absent_or_corrupt (p : platform) (w : world) :
  (state_file w = Absent -> _load_state_file w = (w, Ok ∅)) /\
  (state_file w = Corrupt ->
   _load_state_file w = (w, Raise JSONDecodeError) /\
   exists w', main p w = (w', Raise JSONDecodeError) /\
              copies w' = copies w /\ state_file w' = state_file w).
Proof.
  split; intros Hsf.
  - unfold _load_state_file, try_except, bind, gets, lift. rewrite Hsf. reflexivity.
  - split.
    + unfold _load_state_file, try_except, bind, gets, lift. rewrite Hsf. reflexivity.
    + unfold main, bind. pose proof (init_spec p w) as H.
      destruct (__init__ p w) as [w' r]. destruct H as (Hc & Hf & _ & H).
      rewrite Hsf in H. simpl in H. subst r. exists w'. auto.
Qed.

Lemma C9_witness :
  _load_state_file Scenario.fresh = (Scenario.fresh, Ok ∅) /\
  snd (main Scenario.pc (with_state_file Corrupt Scenario.fresh)) =
  Raise JSONDecodeError.
Proof.
  split.
  - apply (proj1 (C9_state_file_absent_or_corrupt Scenario.pc Scenario.fresh)).
    reflexivity.
  - destruct (proj2 (C9_state_file_absent_or_corrupt Scenario.pc
                       (with_state_file Corrupt Scenario.fresh)) eq_refl)
      as (_ & w' & -> & _).
    reflexivity.
Defined.

(* ===================================================================== *)
(** * The pass over the configured entries *)
(* ===================================================================== *)

Section Orchestrator.

Variable p : platform.

Lemma accepted_entry_has_name entries e :
  existsb malformed_entry entries = false -> In e entries ->
  exists v, getitem e (str "name") = Ok v.
Proof.
  intros Hex He.
  assert (Hm : malformed_entry e = false).
  { destruct (malformed_entry e) eqn:E; [|reflexivity].
    assert (existsb malformed_entry entries = true)
      by (apply existsb_exists; exists e; auto).
    congruence. }
  destruct e as [|b|n|s|l|d]; try discriminate.
  simpl in Hm. apply orb_false_iff in Hm as [_ Hn].
  unfold getitem.
  destruct (assoc (str "name") d) as [v|]; [exists v; reflexivity|discriminate].
Qed.

Lemma tally_completed outcomes :
  (0 <? fst (tally outcomes)) = existsb completed outcomes.
Proof.
  induction outcomes as [|r rs IH]; [reflexivity|].
  simpl. destruct r as [n|ex]; simpl; [|exact IH].
  destruct (tally rs). reflexivity.
Qed.

(** The loop of [perform_backup] is the run the specification describes. *)
Lemma entries_loop entries :
  existsb malformed_entry entries = false ->
  forall fp fb w,
  for_each entries (backup_entry p) (fp, fb) w =
  let '(outcomes, w') := entries_run p entries w in
  (w', Ok (fp + fst (tally outcomes), fb + snd (tally outcomes))).
Proof.
  induction entries as [|e rest IH]; intros Hacc fp fb w.
  - simpl. unfold ret. do 2 f_equal. f_equal; lia.
  - simpl in Hacc. apply orb_false_iff in Hacc as [He Hrest].
    destruct (accepted_entry_has_name (e :: rest) e) as [v Hv].
    { simpl. rewrite He. exact Hrest. }
    { left. reflexivity. }
    simpl. unfold bind at 1. unfold backup_entry at 1.
    unfold try_except, bind at 1.
    destruct (_process_source_directory p e w) as [w1 [n|ex]].
    + unfold ret at 1. rewrite (IH Hrest).
      destruct (entries_run p rest w1) as [rs w3]. simpl.
      destruct (tally rs) as [a b]. simpl. do 3 f_equal; lia.
    + unfold bind, lift, logger, modify, ret. rewrite Hv.
      unfold entry_name. rewrite Hv. rewrite (IH Hrest).
      destruct (entries_run p rest _) as [rs w3]. reflexivity.
Qed.

Lemma entries_run_length entries w :
  length (fst (entries_run p entries w)) = length entries.
Proof.
  revert w. induction entries as [|e rest IH]; intros w; [reflexivity|].
  simpl. destruct (_process_source_directory p e w) as [w1 r].
  specialize (IH (match r with
                  | Ok _ => w1
                  | Raise ex =>
                      with_log (log w1 ++ [ErrEntryFailed (entry_name e) ex]) w1
                  end)).
  destruct (entries_run p rest _) as [rs w3]. simpl in *. now rewrite IH.
Qed.

(** [perform_backup] on a loaded, accepted configuration. *)
Lemma perform_backup_spec cfg entries w :
  load_failed w = false -> config w = Some cfg -> accepted cfg entries ->
  perform_backup p w =
  let '(outcomes, wl) := entries_run p entries w in
  if existsb completed outcomes then
    if state_writable p then
      (with_log (log wl ++ [InfoComplete (snd (tally outcomes))
                                         (fst (tally outcomes))])
         (with_state_file (Content (state wl)) wl), Ok (Some true))
    else
      (let '(w', _) :=
         _notify p (ToastBackupFailed OSError)
           (with_log (log wl ++ [ErrBackupFailed OSError]) wl) in
       (with_backup_failed true w', Ok (Some false)))
  else (wl, Ok (Some false)).
Proof.
  intros Hl Hc [Hsrc Hacc].
  unfold perform_backup. unfold bind at 1. unfold gets at 1. rewrite Hl.
  unfold try_except. unfold bind at 1. unfold gets at 1. rewrite Hc.
  unfold bind at 1, lift at 1. unfold bind at 1, lift at 1. rewrite Hsrc.
  unfold bind at 1, lift at 1. simpl iterate. cbv iota beta.
  unfold bind at 1. rewrite (entries_loop entries Hacc 0 0 w).
  destruct (entries_run p entries w) as [outcomes wl]. simpl.
  rewrite tally_completed.
  destruct (existsb completed outcomes); [|reflexivity].
  unfold _save_state_file. destruct (state_writable p).
  - reflexivity.
  - unfold bind, raise, logger, modify, ret. simpl.
    destruct (_notify p (ToastBackupFailed OSError) _) as [w' r] eqn:E.
    pose proof (notify_frame p (ToastBackupFailed OSError)
                  (with_log (log wl ++ [ErrBackupFailed OSError]) wl)) as H.
    rewrite E in H. destruct H as (-> & _). reflexivity.
Qed.

End Orchestrator.

Section Isolation.

Variable p : platform.

Lemma visit_log base_name locals e w :
  exists l, log (fst (visit p base_name locals e w)) = log w ++ l.
Proof.
  destruct locals as [bp n]. destruct e as [dp [file nd]].
  pose proof (visit_cases p base_name bp n dp file nd w) as H.
  cbv zeta in H.
  destruct (visit p base_name (bp, n) (dp, (file, nd)) w) as [w' r].
  destruct H as (_ & _ & _ & H & _). exact H.
Qed.

Lemma engine_log source_path w :
  exists l, log (fst (_process_source_directory p source_path w)) = log w ++ l.
Proof.
  apply (engine_keeps p (fun w0 => exists l, log w0 = log w ++ l)).
  - exists []. now rewrite app_nil_r.
  - intros bn s x w0 (l0 & Hl0).
    destruct (visit_log bn s x w0) as (l1 & Hl1).
    exists (l0 ++ l1). rewrite Hl1, Hl0, app_assoc. reflexivity.
Qed.

(** The run over the entries: the engine never touches the state file or
    the configuration, the state only grows, the log only grows, and every
    entry that raised has its line in the log. *)
Lemma entries_run_frame entries w :
  let '(outcomes, wl) := entries_run p entries w in
  state_file wl = state_file w /\ config wl = config w /\
  bumps (state w) (state wl) /\
  exists l, log wl = log w ++ l /\
    forall i e ex, entries !! i = Some e -> outcomes !! i = Some (Raise ex) ->
      In (ErrEntryFailed (entry_name e) ex) l.
Proof.
  revert w. induction entries as [|e rest IH]; intros w; simpl.
  - split; [reflexivity|]. split; [reflexivity|]. split; [apply bumps_nil|].
    exists []. split; [now rewrite app_nil_r|]. intros i e ex Hi. discriminate.
  - pose proof (engine_bumps p e w) as Hb.
    destruct (engine_log e w) as (l1 & Hl1).
    destruct (_process_source_directory p e w) as [w1 r]. simpl in Hl1.
    destruct Hb as (Hb & Hc & Hf).
    set (w2 := match r with
               | Ok _ => w1
               | Raise ex =>
                   with_log (log w1 ++ [ErrEntryFailed (entry_name e) ex]) w1
               end).
    assert (H2 : state_file w2 = state_file w1 /\ config w2 = config w1 /\
                 state w2 = state w1 /\
                 exists l, log w2 = log w1 ++ l /\
                   forall ex, r = Raise ex ->
                     In (ErrEntryFailed (entry_name e) ex) l).
    { unfold w2. destruct r as [n|ex]; simpl.
      - split; [reflexivity|]. split; [reflexivity|]. split; [reflexivity|].
        exists []. split; [now rewrite app_nil_r|]. intros ex Hex. discriminate.
      - split; [reflexivity|]. split; [reflexivity|]. split; [reflexivity|].
        eexists. split; [reflexivity|]. intros ex' Hex. injection Hex as <-.
        now left. }
    destruct H2 as (Hf2 & Hc2 & Hs2 & l2 & Hl2 & Hin2).
    specialize (IH w2). destruct (entries_run p rest w2) as [rs w3].
    destruct IH as (Hf3 & Hc3 & Hb3 & l3 & Hl3 & Hin3).
    split; [congruence|]. split; [congruence|].
    split; [eapply bumps_trans; [exact Hb|]; rewrite <- Hs2; exact Hb3|].
    exists (l1 ++ l2 ++ l3). split.
    + rewrite Hl3, Hl2, Hl1, !app_assoc. reflexivity.
    + intros [|i] e' ex Hi Ho; simpl in Hi, Ho.
      * injection Hi as <-. injection Ho as ->.
        apply in_or_app. right. apply in_or_app. left. now apply Hin2.
      * apply in_or_app. right. apply in_or_app. right. now apply (Hin3 i).
Qed.

End Isolation.

(** C4.  With a loaded configuration and a state file that can be written,
    [perform_backup] is the run over all entries in which an entry that
    raises is logged and the next entry is taken from the world it left.
    The pass returns [True] exactly when some entry returned without
    raising (whatever it copied), and then the state file holds the state
    in memory after the last entry; when no entry returned, the pass
    returns [False] and the state file is not written.  The copies of the
    entries that returned are kept in both cases. *)
Theorem C4_failing_entry_is_isolated (p : platform) (cfg : json)
    (entries : list json) (w : world) :
  load_failed w = false -> config w = Some cfg -> accepted cfg entries ->
  state_writable p = true ->
  let '(outcomes, wl) := entries_run p entries w in
  let '(w', r) := perform_backup p w in
  let some_entry_returned := exists i n, outcomes !! i = Some (Ok n) in
  length outcomes = length entries /\
  (forall i e ex, entries !! i = Some e -> outcomes !! i = Some (Raise ex) ->
     In (ErrEntryFailed (entry_name e) ex) (log w')) /\
  copies w' = copies wl /\ state w' = state wl /\
  (r = Ok (Some true) <-> some_entry_returned) /\
  (some_entry_returned -> state_file w' = Content (state wl)) /\
  (~ some_entry_returned -> r = Ok (Some false) /\ state_file w' = state_file w).
Proof.
  intros Hl Hc Hacc Hw.
  pose proof (perform_backup_spec p cfg entries w Hl Hc Hacc) as Hpb.
  pose proof (entries_run_length p entries w) as Hlen.
  pose proof (entries_run_frame p entries w) as Hfr.
  destruct (entries_run p entries w) as [outcomes wl]. simpl in Hlen.
  rewrite Hw in Hpb.
  destruct Hfr as (Hf & _ & _ & lrun & Hlrun & Hin').
  assert (Hin : forall i e ex, entries !! i = Some e ->
                  outcomes !! i = Some (Raise ex) ->
                  In (ErrEntryFailed (entry_name e) ex) (log wl)).
  { intros i e ex Hi Ho. rewrite Hlrun. apply in_or_app. right. eauto. }
  assert (Hex : existsb completed outcomes = true <->
                exists i n, outcomes !! i = Some (Ok n)).
  { rewrite existsb_exists. split.
    - intros (r & Hr & Hcomp). destruct r as [n|ex]; [|discriminate].
      apply list_elem_of_In, list_elem_of_lookup in Hr as [i Hi]. eauto.
    - intros (i & n & Hi). exists (Ok n). split; [|reflexivity].
      apply list_elem_of_In, list_elem_of_lookup. eauto. }
  destruct (existsb completed outcomes) eqn:E; rewrite Hpb; cbn -[lookup].
  - assert (Hsome : exists i n, outcomes !! i = Some (Ok n))
      by (apply Hex; reflexivity).
    split; [exact Hlen|].
    split; [intros i e ex Hi Ho; apply in_or_app; left; eauto|].
    split; [reflexivity|]. split; [reflexivity|].
    split; [split; [intros _; exact Hsome|reflexivity]|].
    split; [reflexivity|]. intros Hn. destruct (Hn Hsome).
  - assert (Hno : ~ exists i n, outcomes !! i = Some (Ok n)).
    { intros H. apply Hex in H. discriminate. }
    split; [exact Hlen|].
    split; [exact Hin|].
    split; [reflexivity|]. split; [reflexivity|].
    split; [split; [discriminate|intros H; destruct (Hno H)]|].
    split; [intros H; destruct (Hno H)|].
    intros _. split; [reflexivity|exact Hf].
Qed.

Lemma C4_witness :
  let '(w', r) :=
    perform_backup Scenario.pc (with_config (Some Scenario.cfg) Scenario.fresh) in
  r = Ok (Some true) /\
  state_file w' = Content {[ str "DS30000.sl2" := 5%Z; str "DS30001.sl2" := 7%Z ]} /\
  In (ErrEntryFailed (JStr (str "Bad")) TypeError) (log w').
Proof.
  pose proof (C4_failing_entry_is_isolated Scenario.pc Scenario.cfg
                [Scenario.bad_entry; Scenario.good_entry]
                (with_config (Some Scenario.cfg) Scenario.fresh)
                eq_refl eq_refl (conj eq_refl eq_refl) eq_refl) as H.
  destruct (entries_run _ _ _) as [outcomes wl] eqn:E.
  destruct (perform_backup _ _) as [w' r].
  destruct H as (_ & Hlog & _ & _ & Hr & Hsaved & _).
  assert (Ho : outcomes = [Raise TypeError; Ok 2]).
  { apply (f_equal fst) in E. simpl in E. rewrite <- E. vm_compute. reflexivity. }
  assert (Hs : state wl = {[ str "DS30000.sl2" := 5%Z; str "DS30001.sl2" := 7%Z ]}).
  { apply (f_equal snd) in E. simpl in E. rewrite <- E. vm_compute. reflexivity. }
  subst outcomes.
  assert (Hsome : exists i n, [Raise TypeError; Ok 2] !! i = Some (Ok n))
    by (exists 1, 2; reflexivity).
  split; [apply Hr; exact Hsome|].
  split; [rewrite (Hsaved Hsome), Hs; reflexivity|].
  apply (Hlog 0 Scenario.bad_entry TypeError); reflexivity.
Defined.

(* ===================================================================== *)
(** * Running the program twice *)
(* ===================================================================== *)

Section SecondRun.

Variable p : platform.

Lemma seen_in_mono st st' e : state_le st st' -> seen_in st e -> seen_in st' e.
Proof.
  intros Hle (t & Ht & Hm). destruct (Hle _ _ Ht) as (t' & Ht' & Hle').
  exists t'. split; [assumption|lia].
Qed.

Lemma seen_in_not_new st e :
  seen_in st e -> new_or_modified st (fst (snd e)) (node_mtime (snd (snd e))) = false.
Proof.
  intros (t & Ht & Hm). unfold new_or_modified. rewrite Ht.
  apply Z.ltb_ge. exact Hm.
Qed.

Lemma not_new_seen_in st e :
  new_or_modified st (fst (snd e)) (node_mtime (snd (snd e))) = false -> seen_in st e.
Proof.
  unfold new_or_modified, seen_in.
  destruct (st !! fst (snd e)) as [t|]; [|discriminate].
  intros H. apply Z.ltb_ge in H. eauto.
Qed.

Lemma Unlisted_not_Entry d done rest l :
  map Entry done ++ Unlisted d :: rest <> map Entry l.
Proof.
  intros H.
  assert (Hin : In (Unlisted d) (map Entry l)).
  { rewrite <- H. apply in_or_app. right. now left. }
  apply in_map_iff in Hin as (x & Hx & _). discriminate.
Qed.

(** When nothing under the source path fails to be read and every listed
    save file has been seen, the engine returns 0, copies nothing and
    changes nothing in the state. *)
Lemma engine_idle source_path w base_name top backup_path :
  preamble p (config w) source_path = Ok (base_name, top, backup_path) ->
  readable p top ->
  (forall e, In e (listed p top) -> is_save e = true -> seen_in (state w) e) ->
  exists w', _process_source_directory p source_path w = (w', Ok 0) /\
             copies w' = copies w /\ state w' = state w.
Proof.
  intros Hpre (Hrej & Hplan & Hget) Hseen.
  pose proof (engine_invariant p source_path w base_name top backup_path
    (fun _ w' s => copies w' = copies w /\ state w' = state w /\ snd s = 0)
    (fun _ _ => False) Hpre) as H.
  specialize (H ltac:(congruence)).
  specialize (H ltac:(intros done d rest s w0 Heq _ _;
                      rewrite Hplan in Heq; symmetry in Heq;
                      exact (Unlisted_not_Entry _ _ _ _ Heq))).
  assert (Hstep : forall done e rest s w0,
    plan p top = map Entry done ++ Entry e :: rest ->
    listed p top = done ++ e :: entries_of rest ->
    copies w0 = copies w /\ state w0 = state w /\ snd s = 0 ->
    match visit p base_name s e w0 with
    | (w1, Ok s1) => copies w1 = copies w /\ state w1 = state w /\ snd s1 = 0
    | (w1, Raise _) => False
    end).
  { intros done [dp [file nd]] rest [bp0 n0] w0 _ Hl (Hc & Hs & Hn).
    simpl in Hn. subst n0.
    assert (Hin : In (dp, (file, nd)) (listed p top)).
    { rewrite Hl. apply in_or_app. right. now left. }
    pose proof (visit_cases p base_name bp0 0 dp file nd w0) as Hv.
    cbv zeta in Hv.
    destruct (visit p base_name (bp0, 0) (dp, (file, nd)) w0) as [w1 r].
    destruct Hv as (_ & _ & _ & _ & _ & Hv).
    assert (Hold : is_save (dp, (file, nd)) = true ->
                   new_or_modified (state w0) file (node_mtime nd) = false).
    { intros Hsv. rewrite Hs.
      exact (seen_in_not_new _ _ (Hseen _ Hin Hsv)). }
    destruct Hv as [(_ & -> & Hs1 & Hc1 & _)
                   |[(Hsv & _ & Hnew & _)
                    |(Hsv & Hbad & _)]].
    - simpl. split; [congruence|]. split; [congruence|reflexivity].
    - rewrite (Hold Hsv) in Hnew. discriminate.
    - destruct Hbad as [Hg|Hnew].
      + pose proof (Hget _ Hin Hsv) as Hg'. simpl in Hg'. congruence.
      + rewrite (Hold Hsv) in Hnew. discriminate. }
  specialize (H Hstep (conj eq_refl (conj eq_refl eq_refl))).
  destruct (_process_source_directory p source_path w) as [w' [k|ex]].
  - destruct H as (_ & _ & s & Hk & Hc & Hs & Hn).
    exists w'. rewrite <- Hk, Hn. auto.
  - destruct H.
Qed.

(** An invocation that returns has read everything under the source path,
    and afterwards every listed save file has been seen. *)
Lemma engine_settles source_path w w' k :
  _process_source_directory p source_path w = (w', Ok k) ->
  exists base_name top backup_path,
    preamble p (config w) source_path = Ok (base_name, top, backup_path) /\
    readable p top /\
    forall e, In e (listed p top) -> is_save e = true -> seen_in (state w') e.
Proof.
  intros E.
  destruct (preamble p (config w) source_path) as [[[bn top] bp]|ex] eqn:Hpre.
  2:{ rewrite process_source_directory_eq, Hpre in E. discriminate. }
  exists bn, top, bp. split; [reflexivity|].
  pose proof (engine_invariant p source_path w bn top bp
    (fun done w' _ =>
       forall e, In e done -> is_save e = true ->
         seen_in (state w') e /\
         getmtime_blocked p (fst e ++ [fst (snd e)]) = false)
    (fun _ _ => True) Hpre) as H.
  specialize (H ltac:(intros _; exact I)).
  specialize (H ltac:(intros; exact I)).
  assert (Hstep : forall done x rest s w0,
    plan p top = map Entry done ++ Entry x :: rest ->
    listed p top = done ++ x :: entries_of rest ->
    (forall e, In e done -> is_save e = true ->
       seen_in (state w0) e /\
       getmtime_blocked p (fst e ++ [fst (snd e)]) = false) ->
    match visit p bn s x w0 with
    | (w1, Ok _) =>
        forall e, In e (done ++ [x]) -> is_save e = true ->
          seen_in (state w1) e /\
          getmtime_blocked p (fst e ++ [fst (snd e)]) = false
    | (w1, Raise ex) => True
    end).
  { intros done [dp [file nd]] rest [bp0 n0] w0 _ _ Hdone.
    pose proof (visit_bumps p bn (bp0, n0) (dp, (file, nd)) w0) as Hb.
    pose proof (visit_cases p bn bp0 n0 dp file nd w0) as Hv. cbv zeta in Hv.
    destruct (visit p bn (bp0, n0) (dp, (file, nd)) w0) as [w1 r].
    destruct Hb as (Hb & _). apply bumps_state_le in Hb.
    destruct Hv as (_ & _ & _ & _ & _ & Hv).
    destruct Hv as [(Hcase & -> & Hs1 & _)
                   |[(Hsv & Hg & Hnew & _ & _ & -> & _ & Hs1 & _)
                    |(_ & _ & Hr & _)]].
    - intros e He Hsave. apply in_app_or in He as [He|[<-|[]]].
      + destruct (Hdone e He Hsave) as (Hseen & Hg).
        split; [|exact Hg]. eapply seen_in_mono; eauto.
      + destruct Hcase as [Hns|(Hg & Hnn)]; [congruence|].
        split; [|exact Hg]. rewrite Hs1. now apply not_new_seen_in.
    - intros e He Hsave. apply in_app_or in He as [He|[<-|[]]].
      + destruct (Hdone e He Hsave) as (Hseen & Hg').
        split; [|exact Hg']. eapply seen_in_mono; eauto.
      + split; [|exact Hg].
        exists (node_mtime nd). simpl. rewrite Hs1, lookup_insert_eq.
        split; [reflexivity|lia].
    - destruct Hr as [-> | ->]; exact I. }
  specialize (H Hstep ltac:(intros e [])).
  rewrite E in H. destruct H as (Hrej & Hplan & s & _ & H).
  split.
  - split; [exact Hrej|]. split; [exact Hplan|].
    intros e He Hsv. now apply H.
  - intros e He Hsv. now apply H.
Qed.

(** An entry the engine refuses raises and leaves the world as it is. *)
Lemma engine_refuses source_path w :
  refused p (config w) source_path ->
  exists ex, _process_source_directory p source_path w = (w, Raise ex).
Proof.
  unfold refused. intros H. rewrite process_source_directory_eq.
  destruct (preamble p (config w) source_path) as [[[bn top] bp]|ex].
  - rewrite H. eauto.
  - eauto.
Qed.

(** The run over the entries, started again from a state that holds at
    least what the first run left: an entry that returned the first time
    returns 0; and when every entry that raised the first time is one the
    engine refuses, the second run copies nothing and leaves the state as
    it was. *)
Lemma run_again entries : forall w w' outcomes wl,
  entries_run p entries w = (outcomes, wl) ->
  config w' = config w ->
  state_le (state wl) (state w') ->
  let '(outcomes', wl') := entries_run p entries w' in
  (forall i k, outcomes !! i = Some (Ok k) -> outcomes' !! i = Some (Ok 0)) /\
  ((forall i e ex, entries !! i = Some e -> outcomes !! i = Some (Raise ex) ->
      refused p (config w) e) ->
   copies wl' = copies w' /\ state wl' = state w' /\
   existsb completed outcomes' = existsb completed outcomes).
Proof.
  induction entries as [|e rest IH]; intros w w' outcomes wl E Hcfg Hle.
  - simpl in *. injection E as <- <-. split; [intros i k Hi; discriminate|].
    intros _. repeat split; reflexivity.
  - simpl in E.
    pose proof (engine_bumps p e w) as Hb.
    destruct (_process_source_directory p e w) as [w1 r] eqn:E1.
    destruct Hb as (_ & Hc1 & _).
    set (w2 := match r with
               | Ok _ => w1
               | Raise ex =>
                   with_log (log w1 ++ [ErrEntryFailed (entry_name e) ex]) w1
               end) in *.
    assert (H2 : state w2 = state w1 /\ config w2 = config w1)
      by (unfold w2; destruct r; split; reflexivity).
    destruct H2 as (Hs2 & Hc2).
    pose proof (entries_run_frame p rest w2) as Hfr.
    destruct (entries_run p rest w2) as [rs w3] eqn:E2.
    injection E as <- <-.
    destruct Hfr as (_ & _ & Hb3 & _). apply bumps_state_le in Hb3.
    simpl.
    pose proof (engine_bumps p e w') as Hb'.
    destruct (_process_source_directory p e w') as [w1' r'] eqn:E1'.
    destruct Hb' as (Hb' & Hc1' & _). apply bumps_state_le in Hb'.
    set (w2' := match r' with
                | Ok _ => w1'
                | Raise ex =>
                    with_log (log w1' ++ [ErrEntryFailed (entry_name e) ex]) w1'
                end) in *.
    assert (H2' : state w2' = state w1' /\ config w2' = config w1' /\
                  copies w2' = copies w1')
      by (unfold w2'; destruct r'; repeat split; reflexivity).
    destruct H2' as (Hs2' & Hc2' & Hco2').
    specialize (IH w2 w2' rs w3 E2).
    specialize (IH ltac:(congruence)).
    specialize (IH ltac:(rewrite Hs2'; eapply state_le_trans; eassumption)).
    destruct (entries_run p rest w2') as [rs' w3'].
    destruct IH as (IHok & IHall).
    assert (Hfirst : forall k, r = Ok k ->
              r' = Ok 0 /\ copies w1' = copies w' /\ state w1' = state w').
    { intros k ->.
      destruct (engine_settles e w w1 k E1) as (bn & top & bp & Hpre & Hrd & Hseen).
      destruct (engine_idle e w' bn top bp) as (wx & Ex & Hcx & Hsx).
      - rewrite Hcfg. exact Hpre.
      - exact Hrd.
      - intros x Hx Hsv. eapply seen_in_mono; [|apply Hseen; assumption].
        eapply state_le_trans; [|exact Hle].
        rewrite <- Hs2. exact Hb3.
      - rewrite E1' in Ex. injection Ex as <- <-. auto. }
    split.
    + intros [|i] k Hi; simpl in Hi |- *.
      * injection Hi as ->. destruct (Hfirst k eq_refl) as (-> & _).
        reflexivity.
      * now apply (IHok i k).
    + intros Href.
      assert (Hhead : copies w1' = copies w' /\ state w1' = state w' /\
                      completed r' = completed r).
      { destruct r as [k|ex].
        - destruct (Hfirst k eq_refl) as (-> & Hc & Hs). auto.
        - destruct (engine_refuses e w') as (ex' & Ex').
          { rewrite Hcfg. apply (Href 0 e ex); reflexivity. }
          rewrite E1' in Ex'. injection Ex' as -> ->. auto. }
      destruct Hhead as (Hch & Hsh & Hrh).
      destruct IHall as (Hc3 & Hs3 & Hex3).
      { intros i x ex Hi Ho. rewrite Hc2, Hc1. apply (Href (S i) x ex); assumption. }
      split; [congruence|]. split; [congruence|].
      simpl. rewrite Hrh, Hex3. reflexivity.
Qed.

End SecondRun.

Section TwoRuns.

Variable p : platform.

(** One run of the program, from any world: when both files load and the
    configuration is accepted, it is the pass from the object the
    constructor leaves; otherwise it returns or raises before the pass and
    nothing is copied or written. *)
Lemma main_spec w :
  match open_and_load (state_file w), config_outcome p with
  | Raise FileNotFoundError, Ok (Some cfg) | Ok _, Ok (Some cfg) =>
      exists entries wi,
        __init__ p w = (wi, Ok tt) /\
        config_file p = Content cfg /\ accepted cfg entries /\
        config wi = Some cfg /\ load_failed wi = false /\
        state wi = stored (state_file w) /\ copies wi = copies w /\
        state_file wi = state_file w /\
        main p w = perform_backup p wi
  | _, _ =>
      exists wi r, main p w = (wi, r) /\ r <> Ok (Some true) /\
                   r <> Ok (Some false) /\
                   copies wi = copies w /\ state_file wi = state_file w
  end.
Proof.
  unfold main, bind.
  pose proof (init_spec p w) as Hi.
  destruct (__init__ p w) as [wi r]. destruct Hi as (Hc & Hf & _ & Hi).
  assert (Hidle : forall wx, load_failed wx = true ->
                  perform_backup p wx = (wx, Ok None)).
  { intros wx Hl. unfold perform_backup, bind, gets. rewrite Hl. reflexivity. }
  assert (Hgo : forall cfg,
    config_outcome p = Ok (Some cfg) ->
    r = Ok tt /\ load_failed wi = false /\ config wi = Some cfg /\
    state wi = stored (state_file w) /\
    log wi = log w ++ [InfoStarting; InfoConfigLoaded] ->
    exists entries wi0,
      (wi, r) = (wi0, Ok tt) /\
      config_file p = Content cfg /\ accepted cfg entries /\
      config wi0 = Some cfg /\ load_failed wi0 = false /\
      state wi0 = stored (state_file w) /\ copies wi0 = copies w /\
      state_file wi0 = state_file w /\
      match r with
      | Ok _ => perform_backup p wi
      | Raise e => (wi, Raise e)
      end = perform_backup p wi0).
  { intros cfg Hco (-> & Hl & Hg & Hs & _).
    destruct (config_outcome_accepted p cfg Hco) as (Hfile & entries & Hacc).
    exists entries, wi. split; [reflexivity|]. split; [exact Hfile|].
    split; [exact Hacc|]. split; [exact Hg|]. split; [exact Hl|].
    split; [exact Hs|]. split; [exact Hc|]. split; [exact Hf|]. reflexivity. }
  assert (Hstop : forall e, r = Raise e ->
    exists wi0 r0,
      match r with
      | Ok _ => perform_backup p wi
      | Raise e => (wi, Raise e)
      end = (wi0, r0) /\ r0 <> Ok (Some true) /\ r0 <> Ok (Some false) /\
      copies wi0 = copies w /\ state_file wi0 = state_file w).
  { intros e ->. exists wi, (Raise e). repeat split; auto; discriminate. }
  assert (Hnone : r = Ok tt /\ load_failed wi = true ->
    exists wi0 r0,
      match r with
      | Ok _ => perform_backup p wi
      | Raise e => (wi, Raise e)
      end = (wi0, r0) /\ r0 <> Ok (Some true) /\ r0 <> Ok (Some false) /\
      copies wi0 = copies w /\ state_file wi0 = state_file w).
  { intros (-> & Hl). rewrite (Hidle wi Hl). exists wi, (Ok None).
    repeat split; auto; discriminate. }
  destruct (open_and_load (state_file w)) as [st|[]];
    try (eapply Hstop; exact Hi).
  all: destruct Hi as (Hi & _).
  all: destruct (config_outcome p) as [[cfg|]|e] eqn:Hco;
         [apply (Hgo cfg eq_refl Hi)|apply Hnone; exact Hi
         |eapply Hstop; exact Hi].
Qed.

(** A run that returns [True] has gone through the entries of an accepted
    configuration, from the stored state, and has written the state it
    reached. *)
Lemma main_saved w w1 :
  main p w = (w1, Ok (Some true)) ->
  exists cfg entries wi,
    __init__ p w = (wi, Ok tt) /\
    config_file p = Content cfg /\ accepted cfg entries /\
    config wi = Some cfg /\ state wi = stored (state_file w) /\
    copies wi = copies w /\ state_writable p = true /\
    let '(outcomes, wl) := entries_run p entries wi in
    existsb completed outcomes = true /\
    copies w1 = copies wl /\ state_file w1 = Content (state wl).
Proof.
  intros E. pose proof (main_spec w) as H.
  assert (Hno : (exists wi r, main p w = (wi, r) /\ r <> Ok (Some true) /\
                   r <> Ok (Some false) /\
                   copies wi = copies w /\ state_file wi = state_file w) ->
                False).
  { intros (wi & r & Hm & Hr & _). rewrite E in Hm. injection Hm as <- <-.
    now apply Hr. }
  assert (Hyes : forall cfg,
    (exists entries wi,
        __init__ p w = (wi, Ok tt) /\
        config_file p = Content cfg /\ accepted cfg entries /\
        config wi = Some cfg /\ load_failed wi = false /\
        state wi = stored (state_file w) /\ copies wi = copies w /\
        state_file wi = state_file w /\
        main p w = perform_backup p wi) ->
    exists cfg entries wi,
      __init__ p w = (wi, Ok tt) /\
      config_file p = Content cfg /\ accepted cfg entries /\
      config wi = Some cfg /\ state wi = stored (state_file w) /\
      copies wi = copies w /\ state_writable p = true /\
      let '(outcomes, wl) := entries_run p entries wi in
      existsb completed outcomes = true /\
      copies w1 = copies wl /\ state_file w1 = Content (state wl)).
  { intros cfg (entries & wi & Hin & Hfile & Hacc & Hg & Hl & Hs & Hc & _ & Hm).
    exists cfg, entries, wi.
    rewrite E in Hm.
    rewrite (perform_backup_spec p cfg entries wi Hl Hg Hacc) in Hm.
    destruct (entries_run p entries wi) as [outcomes wl].
    destruct (existsb completed outcomes); [|discriminate].
    destruct (state_writable p).
    - injection Hm as ->. split; [exact Hin|]. split; [exact Hfile|].
      split; [exact Hacc|]. split; [exact Hg|]. split; [exact Hs|].
      split; [exact Hc|]. split; [reflexivity|]. split; [reflexivity|].
      split; reflexivity.
    - destruct (_notify p _ _). discriminate. }
  destruct (open_and_load (state_file w)) as [st|[]];
    try (destruct (Hno H));
    (destruct (config_outcome p) as [[cfg|]|e];
     [exact (Hyes cfg H)|destruct (Hno H)|destruct (Hno H)]).
Qed.

Lemma accepted_functional cfg entries entries' :
  accepted cfg entries -> accepted cfg entries' -> entries = entries'.
Proof. intros [H _] [H' _]. congruence. Qed.

(** C5.  The first run returned [True]: some entry returned and the state
    file was written.  The program is started again with the same files.
    Then every entry that returned in the first run returns 0 in the
    second (the engine returns the number of copies it made); and when
    every entry that raised in the first run is one the engine refuses
    before it looks at a file, the second run copies nothing, writes the
    same mapping to the state file and returns [True] again. *)
Theorem C5_second_run_copies_nothing (w w1 : world) :
  main p w = (w1, Ok (Some true)) ->
  exists cfg entries,
    config_file p = Content cfg /\ accepted cfg entries /\
    let '(outcomes, wl) := entries_run p entries (fst (__init__ p w)) in
    let '(outcomes', wl') := entries_run p entries (fst (__init__ p w1)) in
    let '(w2, r2) := main p w1 in
    copies w1 = copies wl /\ state_file w1 = Content (state wl) /\
    state (fst (__init__ p w1)) = state wl /\
    copies (fst (__init__ p w1)) = copies w1 /\
    copies w2 = copies wl' /\
    (forall i k, outcomes !! i = Some (Ok k) -> outcomes' !! i = Some (Ok 0)) /\
    ((forall i e ex, entries !! i = Some e ->
        outcomes !! i = Some (Raise ex) -> refused p (Some cfg) e) ->
     copies w2 = copies w1 /\ state_file w2 = state_file w1 /\
     r2 = Ok (Some true)).
Proof.
  intros E.
  destruct (main_saved w w1 E)
    as (cfg & entries & wi & Hin & Hfile & Hacc & Hg & Hs & Hc & Hw & H1).
  exists cfg, entries. split; [exact Hfile|]. split; [exact Hacc|].
  rewrite Hin. simpl fst.
  destruct (entries_run p entries wi) as [outcomes wl] eqn:E1.
  destruct H1 as (Hex & Hc1 & Hf1).
  pose proof (main_spec w1) as H2. rewrite Hf1 in H2. simpl in H2.
  assert (Hco : config_outcome p = Ok (Some cfg)).
  { pose proof (init_spec p w) as Hi. rewrite Hin in Hi.
    destruct Hi as (_ & _ & _ & Hi).
    destruct (open_and_load (state_file w)) as [st|[]]; try discriminate Hi;
      destruct Hi as (Hi & _);
      (destruct (config_outcome p) as [[c|]|e];
       [destruct Hi as (_ & _ & Hgc & _); congruence
       |destruct Hi as (_ & Hl);
        pose proof (main_spec w) as Hm; rewrite Hin in *; exfalso
       |discriminate Hi]).
    all: unfold main, bind in E; rewrite Hin in E;
         unfold perform_backup, bind, gets in E; rewrite Hl in E;
         discriminate. }
  rewrite Hco in H2.
  destruct H2 as (entries' & wi' & Hin' & _ & Hacc' & Hg' & Hl' & Hs' & Hc' &
                  Hf' & Hm').
  clear entries' Hacc'.
  rewrite Hin'. simpl fst. simpl in Hs'.
  pose proof (run_again p entries wi wi' outcomes wl E1) as Hrun.
  specialize (Hrun ltac:(congruence)).
  specialize (Hrun ltac:(rewrite Hs'; apply state_le_refl)).
  rewrite Hm', (perform_backup_spec p cfg entries wi' Hl' Hg' Hacc).
  destruct (entries_run p entries wi') as [outcomes' wl'] eqn:E2.
  destruct Hrun as (Hok & Hall). rewrite Hg in Hall.
  pose proof (entries_run_frame p entries wi') as Hfr. rewrite E2 in Hfr.
  destruct Hfr as (Hfl' & _).
  rewrite Hw.
  assert (Hcop : copies
            (fst (if existsb completed outcomes'
                  then (with_log
                          (log wl' ++ [InfoComplete (snd (tally outcomes'))
                                                    (fst (tally outcomes'))])
                          (with_state_file (Content (state wl')) wl'),
                        Ok (Some true))
                  else (wl', Ok (Some false)))) = copies wl').
  { destruct (existsb completed outcomes'); reflexivity. }
  destruct (existsb completed outcomes') eqn:Ex2; simpl in Hcop |- *.
  - split; [exact Hc1|]. split; [exact Hf1|]. split; [exact Hs'|].
    split; [exact Hc'|]. split; [reflexivity|]. split; [exact Hok|].
    intros Href. destruct (Hall Href) as (Hca & Hsa & _).
    split; [congruence|]. split; [|reflexivity].
    rewrite Hf1, Hsa, Hs'. reflexivity.
  - split; [exact Hc1|]. split; [exact Hf1|]. split; [exact Hs'|].
    split; [exact Hc'|]. split; [reflexivity|]. split; [exact Hok|].
    intros Href. destruct (Hall Href) as (_ & _ & Hexa). congruence.
Qed.

End TwoRuns.

Lemma C5_witness :
  let w1 := fst (main Scenario.pc Scenario.fresh) in
  let w2 := fst (main Scenario.pc w1) in
  length (copies w1) = 2 /\ copies w2 = copies w1 /\
  state_file w2 = state_file w1.
Proof.
  cbv zeta. split; [vm_compute; reflexivity|].
  destruct (main Scenario.pc Scenario.fresh) as [w1 r1] eqn:E.
  assert (Hr : r1 = Ok (Some true)).
  { apply (f_equal snd) in E. simpl in E. rewrite <- E. vm_compute. reflexivity. }
  subst r1. simpl fst.
  destruct (C5_second_run_copies_nothing Scenario.pc Scenario.fresh w1 E)
    as (cfg & entries & Hfile & Hacc & H).
  simpl in Hfile. injection Hfile as <-.
  assert (He : entries = [Scenario.bad_entry; Scenario.good_entry]).
  { destruct Hacc as (Hacc & _). vm_compute in Hacc. now injection Hacc as <-. }
  subst entries.
  destruct (entries_run Scenario.pc _ (fst (__init__ Scenario.pc Scenario.fresh)))
    as [outcomes wl] eqn:E1.
  assert (Ho : outcomes = [Raise TypeError; Ok 2]).
  { apply (f_equal fst) in E1. simpl in E1. rewrite <- E1. vm_compute. reflexivity. }
  destruct (entries_run Scenario.pc _ (fst (__init__ Scenario.pc w1)))
    as [outcomes' wl'].
  destruct (main Scenario.pc w1) as [w2 r2].
  destruct H as (_ & _ & _ & _ & _ & _ & H). simpl.
  destruct H as (Hc & Hf & _); [|auto].
  subst outcomes. intros [|[|i]] e ex He Ho; simpl in He, Ho; try discriminate.
  injection He as <-. exact I.
Defined.

(** The first run copies the save file and then fails on the directory
    next to it, so no entry returns and the state is not written; the
    second run, with nothing changed, copies the same save file again. *)
Lemma C5_failed_run_is_repeated :
  let w1 := fst (main Scenario.pc_with_dir Scenario.fresh) in
  let w2 := fst (main Scenario.pc_with_dir w1) in
  map src (copies w1) = [[str "S"; str "0110"; str "DS30000.sl2"]] /\
  state_file w1 = Absent /\
  map src (copies w2) = [[str "S"; str "0110"; str "DS30000.sl2"];
                         [str "S"; str "0110"; str "DS30000.sl2"]] /\
  copies w2 <> copies w1.
Proof.
  vm_compute. repeat split; try reflexivity. discriminate.
Qed.

(* ===================================================================== *)
(** * More on the sanitizer *)
(* ===================================================================== *)

Section SanitizerResult.

Lemma lstrip_head chars s :
  match lstrip chars s with c :: _ => char_in c chars = false | [] => True end.
Proof.
  induction s as [|d s IH]; simpl; [exact I|].
  destruct (char_in d chars) eqn:E; [exact IH|exact E].
Qed.

(** [lstrip] removes a prefix. *)
Lemma lstrip_suffix chars s : exists pre, s = pre ++ lstrip chars s.
Proof.
  induction s as [|d s [pre IH]]; simpl; [exists []; reflexivity|].
  destruct (char_in d chars).
  - exists (d :: pre). simpl. now f_equal.
  - exists []. reflexivity.
Qed.

(** [rstrip] removes a suffix. *)
Lemma rstrip_prefix chars s : exists post, s = rstrip chars s ++ post.
Proof.
  unfold rstrip. destruct (lstrip_suffix chars (rev s)) as [pre H].
  exists (rev pre). rewrite <- rev_app_distr, <- H. now rewrite rev_involutive.
Qed.

Lemma strip_first chars s :
  match strip chars s with c :: _ => char_in c chars = false | [] => True end.
Proof.
  unfold strip. pose proof (lstrip_head chars s) as Hh.
  destruct (rstrip_prefix chars (lstrip chars s)) as [post Hp].
  destruct (rstrip chars (lstrip chars s)) as [|c r]; [exact I|].
  rewrite Hp in Hh. exact Hh.
Qed.

Lemma strip_last chars s :
  match rev (strip chars s) with
  | c :: _ => char_in c chars = false
  | [] => True
  end.
Proof.
  unfold strip, rstrip. rewrite rev_involutive. apply lstrip_head.
Qed.

Lemma rev_head_nonempty {A} (P : A -> Prop) (l : list A) :
  l <> [] ->
  match rev l with c :: _ => P c | [] => True end ->
  match rev l with c :: _ => P c | [] => False end.
Proof.
  intros Hne H. destruct (rev l) eqn:E; [|exact H].
  apply Hne. apply (f_equal (@rev A)) in E. now rewrite rev_involutive in E.
Qed.

Lemma rev_head_cons {A} (P : A -> Prop) (x : A) (l : list A) :
  l <> [] ->
  match rev l with c :: _ => P c | [] => True end ->
  match rev (x :: l) with c :: _ => P c | [] => False end.
Proof.
  intros Hne H. pose proof (rev_head_nonempty P l Hne H) as H'.
  simpl. destruct (rev l); [destruct H'|exact H'].
Qed.

Lemma before_first_dot_take n s :
  before_first_dot (take n s) = take n (before_first_dot s).
Proof.
  revert n. induction s as [|c s IH]; intros [|n]; simpl; try reflexivity.
  destruct (N.eqb c 46); [reflexivity|]. simpl. now rewrite IH.
Qed.

Lemma upper_take n s : upper (take n s) = take n (upper s).
Proof.
  unfold upper. revert n. induction s as [|c s IH]; intros [|n]; simpl;
    try reflexivity. now rewrite IH.
Qed.

Lemma reserved_is_short s : is_reserved s = true -> length s <= 4.
Proof.
  unfold is_reserved. intros H. apply existsb_exists in H as (r & Hr & He).
  unfold pystr_eqb in He. apply bool_decide_eq_true in He. subst s.
  vm_compute in Hr.
  repeat (destruct Hr as [<-|Hr]; [vm_compute; lia|]). destruct Hr.
Qed.

Lemma underscore_not_reserved s : is_reserved (underscore :: s) = false.
Proof.
  destruct (is_reserved (underscore :: s)) eqn:E; [|reflexivity].
  unfold is_reserved in E. apply existsb_exists in E as (r & Hr & He).
  unfold pystr_eqb in He. apply bool_decide_eq_true in He.
  vm_compute in Hr.
  repeat (destruct Hr as [<-|Hr]; [discriminate He|]). destruct Hr.
Qed.

(** The name before truncation: non-empty, and its stem is not reserved. *)
Lemma guarded_stem_free filename :
  is_reserved
    (upper (before_first_dot (guard_empty (guard_reserved (cleaned filename)))))
  = false.
Proof.
  unfold guard_reserved.
  destruct (is_reserved (upper (before_first_dot (cleaned filename)))) eqn:E.
  - simpl. apply underscore_not_reserved.
  - destruct (cleaned filename) as [|c r] eqn:Ec; [reflexivity|exact E].
Qed.

Lemma make_safe_filename_eq filename :
  make_safe_filename filename =
  take 255 (guard_empty (guard_reserved (cleaned filename))).
Proof. reflexivity. Qed.

Lemma guarded_nonempty filename :
  guard_empty (guard_reserved (cleaned filename)) <> [].
Proof.
  unfold guard_empty.
  destruct (guard_reserved (cleaned filename)); discriminate.
Qed.

Lemma length_bounds (filename : pystr) :
  1 <= length (make_safe_filename filename) <= 255.
Proof.
  rewrite make_safe_filename_eq, length_take.
  pose proof (guarded_nonempty filename) as H.
  destruct (guard_empty (guard_reserved (cleaned filename))); [congruence|].
  cbn [length]. lia.
Qed.

(** The result is never empty and never longer than 255 characters. *)
Theorem sanitized_length_bounds (filename : pystr) :
  1 <= length (make_safe_filename filename) <= 255.
Proof. exact (length_bounds filename). Qed.

Lemma printable_is_ascii c :
  char_in c printable = true -> (9 <= c <= 126)%N.
Proof.
  unfold char_in. intros H. apply existsb_exists in H as (x & Hx & He).
  apply N.eqb_eq in He. subst x.
  assert (Hall : Forall (fun x => (9 <= x <= 126)%N) printable).
  { vm_compute. repeat constructor; discriminate. }
  rewrite Forall_forall in Hall. apply Hall. now apply list_elem_of_In.
Qed.

(** Every character of the result is a character of [string.printable],
    hence an ASCII character between tab and tilde: whatever the input
    holds beyond ASCII is gone. *)
Theorem sanitized_is_ascii (filename : pystr) (c : N) :
  In c (make_safe_filename filename) ->
  char_in c printable = true /\ (9 <= c <= 126)%N.
Proof.
  intros H. pose proof (make_safe_filename_printable filename c H) as Hp.
  split; [exact Hp|]. now apply printable_is_ascii.
Qed.

Lemma sanitized_is_ascii_witness :
  char_in 95 printable = true /\ (9 <= 95 <= 126)%N.
Proof.
  apply (sanitized_is_ascii [233; 233]%N 95%N).
  vm_compute. left. reflexivity.
Defined.

Lemma stem_not_reserved (filename : pystr) :
  is_reserved (upper (before_first_dot (make_safe_filename filename))) = false.
Proof.
  rewrite make_safe_filename_eq, before_first_dot_take, upper_take.
  pose proof (guarded_stem_free filename) as Hg.
  set (stem := upper (before_first_dot
                 (guard_empty (guard_reserved (cleaned filename))))) in *.
  destruct (is_reserved (take 255 stem)) eqn:E; [|reflexivity].
  pose proof (reserved_is_short _ E) as Hlen. rewrite length_take in Hlen.
  rewrite take_ge in E by lia. congruence.
Qed.

(** The part of the result before its first period is never a reserved
    device name, also when the name was cut to 255 characters. *)
Theorem sanitized_stem_not_reserved (filename : pystr) :
  is_reserved (upper (before_first_dot (make_safe_filename filename))) = false.
Proof. exact (stem_not_reserved filename). Qed.

(** The result never starts with a space or a period. *)
Theorem sanitized_first_char (filename : pystr) :
  match make_safe_filename filename with
  | c :: _ => char_in c (str ". ") = false
  | [] => False
  end.
Proof.
  rewrite make_safe_filename_eq. unfold guard_empty, guard_reserved.
  pose proof (strip_first (str ". ") (keep_printable (remove_forbidden filename)))
    as Hf. fold (cleaned filename) in Hf.
  destruct (is_reserved _); [reflexivity|].
  destruct (cleaned filename) as [|c r]; [reflexivity|exact Hf].
Qed.

Lemma make_safe_filename_not_forbidden filename c :
  In c (make_safe_filename filename) -> forbidden c = false.
Proof.
  rewrite make_safe_filename_eq. intros H. apply in_take_In in H.
  unfold guard_empty in H.
  destruct (guard_reserved (cleaned filename)) as [|d r] eqn:E.
  - vm_compute in H. vm_compute. intuition (subst; reflexivity).
  - rewrite <- E in H. clear E d r. unfold guard_reserved in H.
    destruct (is_reserved _).
    + destruct H as [<-|H]; [reflexivity|]. now apply cleaned_incl in H.
    + now apply cleaned_incl in H.
Qed.

Lemma result_is_valid (filename : pystr) :
  length (cleaned filename) < 255 ->
  valid_name (make_safe_filename filename) = true.
Proof.
  intros Hlen. unfold valid_name.
  rewrite (stem_not_reserved filename).
  pose proof (sanitized_first_char filename) as Hfirst.
  assert (Hno : forallb (fun c => negb (forbidden c)) (make_safe_filename filename)
                = true).
  { apply forallb_forall. intros c Hc. apply negb_true_iff.
    now apply (make_safe_filename_not_forbidden filename). }
  assert (Hpr : forallb (fun c => char_in c printable) (make_safe_filename filename)
                = true).
  { apply forallb_forall. intros c Hc.
    now apply (make_safe_filename_printable filename). }
  rewrite Hno, Hpr.
  assert (Hlast : match rev (make_safe_filename filename) with
                  | c :: _ => char_in c (str ". ") = false
                  | [] => False
                  end).
  { rewrite make_safe_filename_eq. unfold guard_empty, guard_reserved.
    pose proof (strip_last (str ". ")
                  (keep_printable (remove_forbidden filename))) as Hl.
    fold (cleaned filename) in Hl.
    destruct (is_reserved _) eqn:Er.
    - rewrite take_ge by (simpl; lia).
      apply rev_head_cons; [|exact Hl].
      intros E. rewrite E in Er. vm_compute in Er. discriminate Er.
    - destruct (cleaned filename) as [|c r] eqn:Ec; [reflexivity|].
      rewrite take_ge by lia.
      apply rev_head_nonempty; [discriminate|exact Hl]. }
  destruct (make_safe_filename filename) as [|c r]; [destruct Hfirst|].
  rewrite Hfirst.
  destruct (rev (c :: r)) as [|d q]; [destruct Hlast|].
  rewrite Hlast. reflexivity.
Qed.

(** When the cleaned name has fewer than 255 characters the result is a
    valid name: nothing forbidden, printable characters only, no space or
    period at either end, a stem that is not reserved. *)
Theorem sanitized_valid (filename : pystr) :
  length (cleaned filename) < 255 ->
  valid_name (make_safe_filename filename) = true.
Proof. exact (result_is_valid filename). Qed.

Lemma sanitized_valid_witness :
  valid_name (make_safe_filename (str " <Dark Souls: III>. ")) = true.
Proof. apply sanitized_valid. vm_compute. lia. Defined.

(** Sanitizing twice gives the same name as sanitizing once, as long as
    the cleaned name has fewer than 255 characters. *)
Theorem sanitize_idempotent (filename : pystr) :
  length (cleaned filename) < 255 ->
  make_safe_filename (make_safe_filename filename) = make_safe_filename filename.
Proof.
  intros Hlen. rewrite (valid_name_fixed _ (result_is_valid filename Hlen)).
  apply take_ge. apply length_bounds.
Qed.

Lemma sanitize_idempotent_witness :
  make_safe_filename (make_safe_filename (str "con.txt")) =
  make_safe_filename (str "con.txt").
Proof. apply sanitize_idempotent. vm_compute. lia. Defined.

(** A valid name of at most 255 characters is returned unchanged. *)
Theorem valid_name_unchanged (s : pystr) :
  valid_name s = true -> length s <= 255 -> make_safe_filename s = s.
Proof.
  intros Hv Hlen. rewrite (valid_name_fixed s Hv). now apply take_ge.
Qed.

Lemma valid_name_unchanged_witness :
  make_safe_filename (str "Dark Souls III") = str "Dark Souls III".
Proof. apply valid_name_unchanged; [reflexivity|simpl; lia]. Defined.

End SanitizerResult.

(* ===================================================================== *)
(** * More on the loaders and the notifier *)
(* ===================================================================== *)

Section LoadersMore.

Variable p : platform.

Lemma notify_effect (t : toast) (w : world) :
  let '(w', r) := _notify p t w in
  r = Ok tt /\
  toast_requests w' = toast_requests w ++ [t] /\
  log w' = log w ++ (if toast_raises p then [ErrNotifyFailed] else []) /\
  state w' = state w /\ copies w' = copies w /\
  state_file w' = state_file w /\ config w' = config w /\
  load_failed w' = load_failed w /\ backup_failed w' = backup_failed w.
Proof.
  unfold _notify, bind, modify, logger, ret. simpl.
  destruct (toast_raises p); simpl; rewrite ?app_nil_r;
    repeat split; reflexivity.
Qed.

Lemma truthy_not_null j : truthy j = true -> j <> JNull.
Proof. intros H ->. discriminate. Qed.

Lemma malformed_entry_false e :
  malformed_entry e = false <-> well_formed_entry e.
Proof.
  unfold well_formed_entry. split.
  - destruct e as [|b|n|s|l|d]; try discriminate. simpl.
    intros H. apply orb_false_iff in H as [Hp Hn].
    apply negb_false_iff in Hp, Hn.
    destruct (assoc (str "path") d) as [pa|] eqn:Epa; [|discriminate].
    destruct (assoc (str "name") d) as [na|] eqn:Ena; [|discriminate].
    exists d, pa, na. repeat split; assumption || reflexivity.
  - intros (d & pa & na & -> & Hpa & Hpt & Hna & Hnt). simpl.
    rewrite Hpa, Hna, Hpt, Hnt. reflexivity.
Qed.

Lemma existsb_malformed_false entries :
  existsb malformed_entry entries = false <-> Forall well_formed_entry entries.
Proof.
  induction entries as [|e es IH]; simpl.
  - split; [constructor|reflexivity].
  - rewrite orb_false_iff, IH, malformed_entry_false, Forall_cons_iff.
    reflexivity.
Qed.

Lemma config_outcome_some cfg :
  config_outcome p = Ok (Some cfg) <->
  config_file p = Content cfg /\ exists entries, well_formed cfg entries.
Proof.
  unfold config_outcome, well_formed. split.
  - destruct (config_file p) as [| | | | |c]; try discriminate.
    destruct c as [|b|n|s|l|d]; try discriminate.
    destruct (malformed_config _ _) eqn:Hm; [discriminate|].
    unfold malformed_config in Hm. apply orb_false_iff in Hm as [Hl Hb].
    apply negb_false_iff in Hl, Hb.
    destruct (assoc (str "source_directories") d) as [sd|] eqn:Esd;
      [|discriminate].
    destruct sd as [|b|n|s|entries|d']; try discriminate.
    destruct (assoc (str "backup_directory") d) as [bd|] eqn:Ebd;
      [|discriminate].
    destruct (existsb malformed_entry entries) eqn:E; [discriminate|].
    intros H. injection H as <-. split; [reflexivity|].
    exists entries, d, bd. repeat split; try assumption.
    now apply existsb_malformed_false.
  - intros (Hf & entries & d & bd & -> & Hsd & Hbd & Hbt & Hall).
    rewrite Hf, Hsd, Hbd. unfold malformed_config. simpl. rewrite Hbt. simpl.
    apply existsb_malformed_false in Hall. rewrite Hall. reflexivity.
Qed.

(** [_load_config_file] returns a configuration exactly when the file
    parses to a well-formed one (an object with a list of entries, each
    an object with a true [path] and [name], and a true
    [backup_directory]); the value returned is the parsed value itself,
    and the loader then changes nothing: no log line, no notification, no
    flag. *)
Theorem config_loaded_iff_well_formed (w : world) (cfg : json) :
  (snd (_load_config_file p w) = Ok (Some cfg) <->
   config_file p = Content cfg /\ exists entries, well_formed cfg entries) /\
  (snd (_load_config_file p w) = Ok (Some cfg) ->
   fst (_load_config_file p w) = w).
Proof.
  assert (Hload : config_file p = Content cfg ->
                  (exists entries, well_formed cfg entries) ->
                  _load_config_file p w = (w, Ok (Some cfg))).
  { intros Hf (entries & d & bd & -> & Hsd & Hbd & Hbt & Hall).
    apply existsb_malformed_false in Hall.
    unfold _load_config_file, try_except, bind, lift, ret.
    rewrite Hf. simpl. rewrite Hsd, Hbd. unfold malformed_config. simpl.
    rewrite Hbt. simpl. rewrite Hall. reflexivity. }
  assert (Hwf : snd (_load_config_file p w) = Ok (Some cfg) ->
                config_file p = Content cfg /\
                exists entries, well_formed cfg entries).
  { intros H. pose proof (load_config_spec p w) as Hs.
    destruct (_load_config_file p w) as [w' r]. simpl in H. subst r.
    destruct Hs as (Hr & _). symmetry in Hr.
    now apply config_outcome_some in Hr. }
  split; [split|].
  - exact Hwf.
  - intros (Hf & Hex). now rewrite (Hload Hf Hex).
  - intros H. destruct (Hwf H) as (Hf & Hex). now rewrite (Hload Hf Hex).
Qed.

End LoadersMore.

Lemma scenario_cfg_well_formed :
  well_formed Scenario.cfg [Scenario.bad_entry; Scenario.good_entry].
Proof.
  eexists _, _. split; [reflexivity|]. split; [reflexivity|].
  split; [reflexivity|]. split; [reflexivity|].
  constructor; [|constructor; [|constructor]].
  - eexists _, _, _. repeat split; reflexivity.
  - eexists _, _, _. repeat split; reflexivity.
Qed.

Lemma config_loaded_iff_well_formed_witness :
  snd (_load_config_file Scenario.pc Scenario.fresh) = Ok (Some Scenario.cfg).
Proof.
  apply (proj2 (proj1 (config_loaded_iff_well_formed Scenario.pc Scenario.fresh
                         Scenario.cfg))).
  split; [reflexivity|]. eexists. exact scenario_cfg_well_formed.
Defined.

Lemma config_failure_disables_run_witness :
  load_failed (fst (__init__ Scenario.pc_empty_config Scenario.fresh)) = true /\
  toast_requests (fst (__init__ Scenario.pc_empty_config Scenario.fresh)) = [].
Proof.
  assert (Hsf : loads (state_file Scenario.fresh)) by (left; reflexivity).
  assert (Hfail : config_failure Scenario.pc_empty_config)
    by (apply (ConfigMalformed _ (JDict [])); reflexivity).
  pose proof (config_failure_disables_run Scenario.pc_empty_config
                Scenario.fresh Hsf Hfail) as H.
  destruct (__init__ _ _) as [w' r].
  destruct H as (_ & Hl & _ & _ & _ & Ht). split; [exact Hl|].
  destruct (Ht (JDict []) eq_refl) as (Ht' & _). exact Ht'.
Defined.

Section ConstructorMore.

Variable p : platform.

(** A constructor that returns without [load_failed] has read both
    files: the object holds the configuration as parsed, it is well formed,
    and the state is the mapping of the state file (empty when there is
    none).  The constructor copies nothing and writes nothing. *)
Theorem constructor_loads_state_and_config (w : world) :
  let '(w', r) := __init__ p w in
  r = Ok tt -> load_failed w' = false ->
  exists cfg entries,
    config w' = Some cfg /\ config_file p = Content cfg /\
    well_formed cfg entries /\
    state w' = stored (state_file w) /\
    copies w' = copies w /\ state_file w' = state_file w.
Proof.
  pose proof (init_spec p w) as H.
  destruct (__init__ p w) as [w' r]. destruct H as (Hc & Hf & _ & H).
  intros -> Hl.
  assert (H' : match config_outcome p with
               | Ok (Some cfg) =>
                   config w' = Some cfg /\ state w' = stored (state_file w)
               | _ => False
               end).
  { destruct (state_file w); simpl in H; try discriminate H;
      destruct H as (H & _);
      (destruct (config_outcome p) as [[cfg|]|e];
       [tauto|destruct H; congruence|discriminate H]). }
  destruct (config_outcome p) as [[cfg|]|e] eqn:Hco;
    [|destruct H'|destruct H'].
  destruct H' as (Hg & Hs).
  apply config_outcome_some in Hco as (Hfile & entries & Hwf).
  exists cfg, entries. repeat split; assumption.
Qed.

End ConstructorMore.

(* ===================================================================== *)
(** * More on the pass and on the program *)
(* ===================================================================== *)

Section PassMore.

Variable p : platform.

Lemma perform_backup_returns (w : world) :
  exists w' v, perform_backup p w = (w', Ok v).
Proof.
  unfold perform_backup. unfold bind at 1. unfold gets at 1.
  destruct (load_failed w); [eexists _, _; reflexivity|].
  unfold try_except.
  match goal with |- context [match ?m w with _ => _ end] =>
    destruct (m w) as [w1 [v|e]] end.
  - eexists _, _; reflexivity.
  - unfold bind at 1. unfold logger at 1, modify at 1.
    unfold bind at 1.
    pose proof (notify_effect p (ToastBackupFailed e)
                  (with_log (log w1 ++ [ErrBackupFailed e]) w1)) as H.
    destruct (_notify p (ToastBackupFailed e) _) as [w2 r].
    destruct H as (-> & _). eexists _, _; reflexivity.
Qed.

(** [perform_backup] never raises, whatever the object holds: an
    exception that escapes the loop or the save is caught, logged and
    notified, and the method returns. *)
Theorem perform_backup_never_raises (w : world) :
  exists w' v, perform_backup p w = (w', Ok v).
Proof. exact (perform_backup_returns w). Qed.


(** An accepted configuration with an empty list of source directories:
    the pass does nothing at all and returns [False]. *)
Theorem empty_source_list_does_nothing (cfg : json) (w : world) :
  load_failed w = false -> config w = Some cfg -> accepted cfg [] ->
  perform_backup p w = (w, Ok (Some false)).
Proof.
  intros Hl Hc Hacc.
  rewrite (perform_backup_spec p cfg [] w Hl Hc Hacc). reflexivity.
Qed.






End PassMore.



Lemma empty_source_list_does_nothing_witness :
  perform_backup Scenario.pc
    (with_config (Some Cases.cfg_no_sources) Scenario.fresh) =
  (with_config (Some Cases.cfg_no_sources) Scenario.fresh, Ok (Some false)).
Proof.
  apply (empty_source_list_does_nothing Scenario.pc Cases.cfg_no_sources);
    try reflexivity.
  split; reflexivity.
Defined.

(* ===================================================================== *)
(** * More on the engine *)
(* ===================================================================== *)

Section EngineMore.

Variable p : platform.

(** What an invocation of the engine leaves behind. *)
Lemma engine_trace source_path w :
  match preamble p (config w) source_path with
  | Raise ex => _process_source_directory p source_path w = (w, Raise ex)
  | Ok (base_name, top, backup_path) =>
      let '(w', r) := _process_source_directory p source_path w in
      exists new,
        copies w' = copies w ++ new /\
        Forall (copied_from p top) new /\
        Forall (fun c => In (dst c) (made_dirs w')) new /\
        (forall file t, state w' !! file = Some t ->
           state w !! file = Some t \/
           exists dir_path d,
             In (dir_path, (file, File t)) (listed p top) /\
             In {| src := dir_path ++ [file]; dst := d |} new) /\
        (forall k, r = Ok k -> length new = k) /\
        (forall ex, r = Raise ex -> ex = OSError \/ ex = ValueError)
  end.
Proof.
  destruct (preamble p (config w) source_path) as [[[bn top] bp]|ex] eqn:Hpre.
  2:{ rewrite process_source_directory_eq, Hpre. reflexivity. }
  set (Inv := fun (w' : world) (new : list copy) =>
    copies w' = copies w ++ new /\
    Forall (copied_from p top) new /\
    Forall (fun c => In (dst c) (made_dirs w')) new /\
    (forall file t, state w' !! file = Some t ->
       state w !! file = Some t \/
       exists dir_path d,
         In (dir_path, (file, File t)) (listed p top) /\
         In {| src := dir_path ++ [file]; dst := d |} new)).
  assert (Inv0 : Inv w []).
  { unfold Inv. rewrite app_nil_r. repeat split; auto. }
  pose proof (engine_invariant p source_path w bn top bp
    (fun _ w' (s : path * nat) => exists new, Inv w' new /\ length new = snd s)
    (fun w' ex => (ex = OSError \/ ex = ValueError) /\ exists new, Inv w' new)
    Hpre) as H.
  specialize (H ltac:(intros _; split; [now right|exists []; exact Inv0])).
  specialize (H ltac:(intros done d rest s w0 _ _ (new & HI & _);
                      split; [now left|exists new; exact HI])).
  assert (Hstep : forall done x rest s w0,
    plan p top = map Entry done ++ Entry x :: rest ->
    listed p top = done ++ x :: entries_of rest ->
    (exists new, Inv w0 new /\ length new = snd s) ->
    match visit p bn s x w0 with
    | (w1, Ok s1) => exists new, Inv w1 new /\ length new = snd s1
    | (w1, Raise ex) =>
        (ex = OSError \/ ex = ValueError) /\ exists new, Inv w1 new
    end).
  { intros done [dp [file nd]] rest [bp0 n0] w0 _ Heq
           (new & (Hco & Hfrom & Hdirs & Hst) & Hlen).
    assert (Hin : In (dp, (file, nd)) (listed p top)).
    { rewrite Heq. apply in_or_app. right. now left. }
    pose proof (visit_cases p bn bp0 n0 dp file nd w0) as Hv. cbv zeta in Hv.
    destruct (visit p bn (bp0, n0) (dp, (file, nd)) w0) as [w1 r].
    destruct Hv as (_ & _ & _ & _ & (l & Hd1) & Hv).
    assert (Hdirs1 : Forall (fun c => In (dst c) (made_dirs w1)) new).
    { eapply Forall_impl; [exact Hdirs|]. intros c Hc. rewrite Hd1.
      apply in_or_app. now left. }
    destruct Hv as [(_ & -> & Hs1 & Hc1 & _)
                   |[(Hsv & _ & Hnew & (m & ->) & Hnb & -> & Hc1 & Hs1 & _ & Hd2)
                    |(_ & _ & Hr & Hc1 & Hs1)]].
    - exists new. split; [|exact Hlen]. unfold Inv.
      rewrite Hc1, Hs1. auto.
    - exists (new ++ [{| src := dp ++ [file];
                         dst := bp0 ++ [clock p (tick w0)] |}]).
      split; [|rewrite length_app; simpl in *; lia].
      split; [rewrite Hc1, Hco, <- app_assoc; reflexivity|].
      split; [|split].
      + apply Forall_app. split; [exact Hfrom|]. constructor; [|constructor].
        exists dp, file, m. auto.
      + apply Forall_app. split; [exact Hdirs1|].
        constructor; [|constructor]. simpl. rewrite Hd2.
        apply in_or_app. right. right. now left.
      + intros k t Hk. rewrite Hs1 in Hk. simpl in Hk.
        destruct (decide (file = k)) as [<-|Hne].
        * rewrite lookup_insert_eq in Hk. injection Hk as <-.
          right. exists dp, (bp0 ++ [clock p (tick w0)]).
          split; [exact Hin|]. apply in_or_app. right. now left.
        * rewrite lookup_insert_ne in Hk by exact Hne.
          destruct (Hst k t Hk) as [Hold|(dp' & d & Hl & Hn)]; [now left|].
          right. exists dp', d. split; [exact Hl|].
          apply in_or_app. now left.
    - assert (Hi : Inv w1 new).
      { unfold Inv. rewrite Hc1, Hs1. auto. }
      destruct Hr as [-> | ->]; (split; [auto|exists new; exact Hi]). }
  specialize (H Hstep).
  specialize (H ltac:(exists []; split; [exact Inv0|reflexivity])).
  destruct (_process_source_directory p source_path w) as [w' [k|ex]].
  - destruct H as (_ & _ & s & Hk & new & (Hco & Hfrom & Hdirs & Hst) & Hlen).
    exists new. split; [exact Hco|]. split; [exact Hfrom|].
    split; [exact Hdirs|]. split; [exact Hst|]. split.
    + intros k' Hk'. injection Hk' as <-. congruence.
    + intros ex Hex. discriminate.
  - destruct H as (Hex & new & (Hco & Hfrom & Hdirs & Hst)).
    exists new. split; [exact Hco|]. split; [exact Hfrom|].
    split; [exact Hdirs|]. split; [exact Hst|]. split.
    + intros k Hk. discriminate.
    + intros ex' Hex'. now injection Hex' as <-.
Qed.

(** Induction on a directory tree. *)
Lemma node_induction (P : node -> Prop) :
  (forall m, P (File m)) ->
  (forall m entries,
      Forall (fun e => P (snd e)) entries -> P (Dir m entries)) ->
  forall n, P n.
Proof.
  intros Hfile Hdir. fix IH 1. intros [m|m entries].
  - apply Hfile.
  - apply Hdir. induction entries as [|[name child] es IHes].
    + constructor.
    + constructor; [apply IH|exact IHes].
Qed.

(** [os.walk] only yields directories under the one it starts from. *)
Lemma walk_roots n : forall root x,
  In x (walk p root n) -> exists below, fst x = root ++ below.
Proof.
  induction n as [m|m entries IH] using node_induction.
  - intros root x [].
  - intros root x H. simpl in H.
    destruct (listdir_blocked p root); [destruct H|].
    destruct H as [<-|H].
    + exists []. simpl. now rewrite app_nil_r.
    + induction entries as [|[name child] es IHes]; [destruct H|].
      apply Forall_cons_iff in IH as [Hc Hes]. simpl in H, Hc.
      apply in_app_or in H as [H|H].
      * destruct (Hc _ _ H) as [below Hb]. exists (name :: below).
        rewrite Hb, <- app_assoc. reflexivity.
      * apply IHes; assumption.
Qed.

Lemma startswith_spec s pre :
  startswith s pre = true <-> exists rest, s = pre ++ rest.
Proof.
  revert s. induction pre as [|c pre IH]; intros [|d s]; simpl.
  - split; [intros _; exists []; reflexivity|reflexivity].
  - split; [intros _; eexists; reflexivity|reflexivity].
  - split; [discriminate|]. intros [rest H]. discriminate.
  - rewrite andb_true_iff, N.eqb_eq, IH. split.
    + intros [-> [rest ->]]. exists rest. reflexivity.
    + intros [rest H]. injection H as -> ->. split; [reflexivity|eauto].
Qed.

(** [endswith] holds exactly of the strings that are a stem followed by
    the suffix. *)
Lemma endswith_spec s suffix :
  endswith s suffix = true <-> exists stem, s = stem ++ suffix.
Proof.
  unfold endswith. rewrite startswith_spec. split.
  - intros [rest H]. exists (rev rest).
    apply (f_equal (@rev N)) in H. rewrite rev_involutive in H.
    rewrite H, rev_app_distr, rev_involutive. reflexivity.
  - intros [stem ->]. exists (rev stem). apply rev_app_distr.
Qed.

(** A listed entry sits in a digit-named directory somewhere under
    [top]. *)
Lemma listed_shape top e :
  In e (listed p top) ->
  exists below dir_name,
    fst e = [top] ++ below ++ [dir_name] /\ isdigit p dir_name = true.
Proof.
  unfold listed, walked, os_walk. intros H.
  apply in_flat_map in H as ([root dirs] & Hw & H). simpl in H.
  apply in_flat_map in H as ([dir_name listing] & Hd & H).
  unfold listed_in_dir in H. simpl in H.
  destruct (isdigit p dir_name) eqn:Hdig; [|destruct H].
  destruct (listdir_blocked p (root ++ [dir_name])); [destruct H|].
  apply in_map_iff in H as (x & <- & _). simpl.
  destruct (rejected p top); [destruct Hw|].
  destruct (tree_at p top) as [n|]; [|destruct Hw].
  destruct (walk_roots n _ _ Hw) as [below Hb]. simpl in Hb.
  exists below, dir_name. split; [|exact Hdig]. rewrite Hb. reflexivity.
Qed.

Lemma preamble_ok source_path cfg base_name top backup_path :
  preamble p cfg source_path = Ok (base_name, top, backup_path) ->
  exists path_string,
    getitem source_path (str "path") = Ok (JStr path_string) /\
    top = expandvars p path_string.
Proof.
  unfold preamble.
  destruct (getitem source_path (str "path")) as [pa|]; [|discriminate].
  destruct (getitem source_path (str "name")) as [na|]; [|discriminate].
  destruct pa as [|b|n|s|l|d]; try discriminate. simpl.
  destruct (make_safe_filename_of na); [|discriminate].
  destruct cfg as [c|]; [|discriminate].
  destruct (getitem c (str "backup_directory")) as [bd|]; [|discriminate].
  destruct (os_path_expandvars p bd); [|discriminate].
  intros H. injection H as _ <- _. exists s. auto.
Qed.

(** The engine only ever copies files whose name ends in [.sl2] and that
    sit directly in a digit-named directory at or below the configured,
    expanded source path; each copy goes into a directory the engine has
    made, and the copies already there are kept. *)
Theorem engine_copies_only_slot_saves (source_path : json) (w : world) :
  let '(w', _) := _process_source_directory p source_path w in
  exists new,
    copies w' = copies w ++ new /\
    forall c, In c new ->
      In (dst c) (made_dirs w') /\
      exists path_string below dir_name stem,
        getitem source_path (str "path") = Ok (JStr path_string) /\
        src c = [expandvars p path_string] ++ below ++
                [dir_name; stem ++ str ".sl2"] /\
        isdigit p dir_name = true.
Proof.
  pose proof (engine_trace source_path w) as H.
  destruct (preamble p (config w) source_path) as [[[bn top] bp]|ex] eqn:Hpre.
  2:{ rewrite H. exists []. rewrite app_nil_r. split; [reflexivity|].
      intros c []. }
  destruct (_process_source_directory p source_path w) as [w' r].
  destruct H as (new & Hco & Hfrom & Hdirs & _).
  exists new. split; [exact Hco|]. intros c Hc.
  rewrite Forall_forall in Hfrom, Hdirs.
  apply list_elem_of_In in Hc.
  split; [now apply Hdirs|].
  destruct (Hfrom c Hc) as (dp & file & m & Hin & Hsv & _ & Hsrc).
  destruct (listed_shape top _ Hin) as (below & dir_name & Hdp & Hdig).
  apply endswith_spec in Hsv as [stem ->].
  destruct (preamble_ok _ _ _ _ _ Hpre) as (ps & Hps & ->).
  exists ps, below, dir_name, stem. simpl in Hdp.
  split; [exact Hps|]. split; [|exact Hdig].
  rewrite Hsrc, Hdp. simpl. rewrite <- app_assoc. reflexivity.
Qed.

Lemma engine_count (source_path : json) (w w' : world) (k : nat) :
  _process_source_directory p source_path w = (w', Ok k) ->
  exists new, copies w' = copies w ++ new /\ length new = k.
Proof.
  intros E. pose proof (engine_trace source_path w) as H.
  destruct (preamble p (config w) source_path) as [[[bn top] bp]|ex].
  2:{ rewrite H in E. discriminate. }
  rewrite E in H. destruct H as (new & Hco & _ & _ & _ & Hk & _).
  exists new. split; [exact Hco|]. now apply Hk.
Qed.

(** When the engine returns, the number it returns is the number of
    copies it made. *)
Theorem engine_count_is_copies (source_path : json) (w w' : world) (k : nat) :
  _process_source_directory p source_path w = (w', Ok k) ->
  exists new, copies w' = copies w ++ new /\ length new = k.
Proof. exact (engine_count source_path w w' k). Qed.

(** Every time stored in the state after an invocation was stored before
    it, or is the modification time of a file of that name that this
    invocation copied: the state never records a file that was not
    copied. *)
Theorem state_records_only_copied_files (source_path : json) (w : world) :
  let '(w', _) := _process_source_directory p source_path w in
  exists new,
    copies w' = copies w ++ new /\
    forall file t, state w' !! file = Some t ->
      state w !! file = Some t \/
      exists dir_path d top,
        In (dir_path, (file, File t)) (listed p top) /\
        In {| src := dir_path ++ [file]; dst := d |} new.
Proof.
  pose proof (engine_trace source_path w) as H.
  destruct (preamble p (config w) source_path) as [[[bn top] bp]|ex].
  2:{ rewrite H. exists []. rewrite app_nil_r. split; [reflexivity|]. auto. }
  destruct (_process_source_directory p source_path w) as [w' r].
  destruct H as (new & Hco & _ & _ & Hst & _).
  exists new. split; [exact Hco|]. intros file t Hf.
  destruct (Hst file t Hf) as [Hold|(dp & d & Hin & Hn)]; [now left|].
  right. exists dp, d, top. auto.
Qed.


(** An entry whose invocation returned is settled: invoked again right
    away, the engine returns 0, copies nothing and leaves the state as it
    is. *)
Theorem engine_twice (source_path : json) (w w1 : world) (k : nat) :
  _process_source_directory p source_path w = (w1, Ok k) ->
  exists w2,
    _process_source_directory p source_path w1 = (w2, Ok 0) /\
    copies w2 = copies w1 /\ state w2 = state w1.
Proof.
  intros E.
  destruct (engine_settles p source_path w w1 k E)
    as (bn & top & bp & Hpre & Hrd & Hseen).
  pose proof (engine_bumps p source_path w) as Hb.
  rewrite E in Hb. destruct Hb as (_ & Hc & _).
  apply (engine_idle p source_path w1 bn top bp); [|exact Hrd|exact Hseen].
  rewrite Hc. exact Hpre.
Qed.


End EngineMore.

(* ===================================================================== *)
(** * The engine statements on the concrete installation *)
(* ===================================================================== *)

Lemma constructor_loads_state_and_config_witness :
  config (fst (__init__ Scenario.pc Scenario.fresh)) = Some Scenario.cfg.
Proof.
  pose proof (constructor_loads_state_and_config Scenario.pc Scenario.fresh)
    as H.
  destruct (__init__ Scenario.pc Scenario.fresh) as [w' r] eqn:E.
  assert (Hr : r = Ok tt).
  { apply (f_equal snd) in E. simpl in E. rewrite <- E. reflexivity. }
  assert (Hl : load_failed w' = false).
  { apply (f_equal (fun x => load_failed (fst x))) in E. simpl in E.
    rewrite <- E. reflexivity. }
  destruct (H Hr Hl) as (cfg & entries & Hg & Hfile & _).
  simpl in Hfile. injection Hfile as <-. exact Hg.
Defined.

Lemma engine_copies_only_slot_saves_witness :
  Forall (fun c => In (dst c) (made_dirs (fst Cases.first_invocation)))
         (copies (fst Cases.first_invocation)).
Proof.
  pose proof (engine_copies_only_slot_saves Scenario.pc Scenario.good_entry
                Cases.configured) as H.
  fold Cases.first_invocation in H.
  destruct Cases.first_invocation as [w' r].
  destruct H as (new & Hco & H). simpl in Hco. simpl.
  apply List.Forall_forall. intros c Hc. rewrite Hco in Hc. now apply H.
Defined.

Lemma engine_count_is_copies_witness :
  length (copies (fst Cases.first_invocation)) = 2.
Proof.
  destruct Cases.first_invocation as [w' r] eqn:E.
  assert (Hr : r = Ok 2).
  { apply (f_equal snd) in E. simpl in E. rewrite <- E. vm_compute. reflexivity. }
  subst r. unfold Cases.first_invocation in E.
  destruct (engine_count_is_copies _ _ _ _ _ E) as (new & Hco & Hlen).
  simpl in *. now rewrite Hco.
Defined.

Lemma state_records_only_copied_files_witness :
  map_Forall
    (fun file (_ : Z) =>
       exists dir_path d,
         In {| src := dir_path ++ [file]; dst := d |}
            (copies (fst Cases.first_invocation)))
    (state (fst Cases.first_invocation)).
Proof.
  pose proof (state_records_only_copied_files Scenario.pc Scenario.good_entry
                Cases.configured) as H.
  fold Cases.first_invocation in H.
  destruct Cases.first_invocation as [w' r].
  destruct H as (new & Hco & H). simpl in Hco. simpl.
  intros file t Hf. destruct (H file t Hf) as [Hold|(dp & d & top & _ & Hin)].
  - simpl in Hold. rewrite lookup_empty in Hold. discriminate.
  - exists dp, d. now rewrite Hco.
Defined.


Lemma engine_twice_witness :
  snd (_process_source_directory Scenario.pc Scenario.good_entry
         (fst Cases.first_invocation)) = Ok 0.
Proof.
  destruct Cases.first_invocation as [w' r] eqn:E.
  assert (Hr : r = Ok 2).
  { apply (f_equal snd) in E. simpl in E. rewrite <- E. vm_compute. reflexivity. }
  subst r. unfold Cases.first_invocation in E.
  destruct (engine_twice _ _ _ _ _ E) as (w2 & E2 & _).
  simpl. now rewrite E2.
Defined.

